(** * Outray tunnel client (src/client.ts, src/types.ts)

    A shallow embedding of the [Client] class: the fields of the object, the
    objects it creates (control channels, local sockets, datagram exchanges,
    suspended [handleRequest] activations), and one transition per callback
    that the class registers with the Node runtime.  Every callback body is
    written in a small exception-and-trace monad so that [try]/[catch] in
    the source stays [try_catch] here, and an [async] method is cut at its
    [await]s into the stretches that run without interruption.

    What the model takes from outside the class:
    - an inbound text message is given by what [JSON.parse] makes of it, with
      the fields at the types that the casts of [handleMessage] assert;
    - a user callback is given by whether it returns or throws (a request
      handler: by how its promise settles); it does not call back into the
      client, and the logger does not throw; what it throws is an [Error]
      or a value that [String(...)] converts (a [Symbol], which a template
      literal cannot convert, is left out);
    - [ws.send] throws while its channel is still CONNECTING and returns
      otherwise.  In a listener the frame is recorded when the call
      returns, and the exception leaves the listener; inside the promise
      executor of [sendResponse] the call is recorded as such, and its
      failure (the exception, which rejects the promise, or the error given
      to its callback) is the event [SendDone] with that error.  What the
      transport does with a frame it has taken is not the client's;
    - an exception that leaves a listener is recorded as [Uncaught]; what
      the process does with it (by default it ends) is not modelled, and a
      run goes on with the client as the listener left it;
    - [net.createConnection] and the datagram [socket.send] do not throw:
      where they are called, the configured port is one that they accept;
    - which events the [ws] library, a [net.Socket], a [dgram.Socket] and the
      timers can deliver in which state is stated by [channel_enabled],
      [tcp_enabled] and [udp_enabled];
    - the order in which [close] walks [tcpConnections] is the order of the
      finite map, not the insertion order of the JavaScript [Map]. *)

From stdpp Require Import gmap strings list fin_maps pretty.
From Stdlib Require Import ZArith Lia.

Local Open Scope Z_scope.

(** ** Values *)

(** A [Buffer] is its bytes. *)
Abbreviation Buffer := (list Byte.byte).

(** [Record<string, string>] keeps its keys in insertion order. *)
Abbreviation Headers := (list (string * string)).

(** A JavaScript [Error]: its [name] and its [message]. *)
Record JsError := mkError { errName : string; errMessage : string }.

(** What a [throw] (or a rejected promise) carries: an [Error], or some other
    value, kept by what [String(...)] makes of it.  A [Symbol] has no such
    string and is not among the values modelled. *)
Inductive Thrown :=
  | ThrownError (e : JsError)
  | ThrownValue (shown : string).

(** [String(err)], which is also what a template literal makes of [err]. *)
Definition String_of (t : Thrown) : string :=
  match t with
  | ThrownError e =>
      if decide (errMessage e = "") then errName e
      else if decide (errName e = "") then errMessage e
      else errName e +:+ ": " +:+ errMessage e
  | ThrownValue s => s
  end.

(** [err instanceof Error ? err : new Error(String(err))] *)
Definition toError (t : Thrown) : JsError :=
  match t with
  | ThrownError e => e
  | ThrownValue _ => mkError "Error" (String_of t)
  end.

(** ** types.ts *)

Module MessageType.
Definition OPEN_TUNNEL : string := "open_tunnel".
Definition TUNNEL_OPENED : string := "tunnel_opened".
Definition REQUEST : string := "request".
Definition RESPONSE : string := "response".
Definition ERROR : string := "error".
Definition TCP_CONNECTION : string := "tcp_connection".
Definition TCP_DATA : string := "tcp_data".
Definition UDP_DATA : string := "udp_data".
Definition UDP_RESPONSE : string := "udp_response".
End MessageType.

Inductive Protocol := http | tcp | udp.

#[global] Instance Protocol_eq_dec : EqDecision Protocol.
Proof. solve_decision. Defined.

Record IncomingRequest := {
  id : string;
  method : string;
  path : string;
  headers : Headers;
  body : option Buffer;
}.

Inductive Body :=
  | BodyBuffer (b : Buffer)
  | BodyString (s : string).

Record IncomingResponse := {
  statusCode : Z;
  resp_headers : option Headers;
  resp_body : option Body;
}.

(** A frame handed to [ws.send], before [JSON.stringify]; the first
    component of each is its [type] field. *)
Inductive Frame :=
  | OpenTunnelRequest (apiKey : string) (protocol : Protocol) (remotePort : Z)
  | ResponseMessage (requestId : string) (statusCode : Z) (headers : Headers) (body : string)
  | TCPData (connectionId : string) (data : string)
  | UDPResponse (packetId : string) (data : string).

Definition frame_type (f : Frame) : string :=
  match f with
  | OpenTunnelRequest _ _ _ => MessageType.OPEN_TUNNEL
  | ResponseMessage _ _ _ _ => MessageType.RESPONSE
  | TCPData _ _ => MessageType.TCP_DATA
  | UDPResponse _ _ => MessageType.UDP_RESPONSE
  end.

(** The fields [handleMessage] reads from a parsed inbound object, each at
    the type its cast asserts ([data.url as string], ...); [headers] and
    [body] are the two the code treats as optional. *)
Record Fields := {
  f_url : string;
  f_connectionId : string;
  f_data : string;
  f_packetId : string;
  f_requestId : string;
  f_method : string;
  f_path : string;
  f_headers : option Headers;
  f_body : option string;
  f_message : string;
}.

(** A text message of the control channel, by what [JSON.parse] makes of it:
    a [SyntaxError]; the value [null]; or a value whose [type] property is
    the given string ([None] when [data.type] is no string, which covers
    every JSON value that is not an object). *)
Inductive RawMessage :=
  | Unparseable (why : string)
  | JsonNull
  | Parsed (type : option string) (data : Fields).

(** What a user callback does when called. *)
Inductive CallbackResult :=
  | Returns
  | Throws (t : Thrown).

(** What [onRequest] does when called: it throws; or it returns a response
    (or a promise fulfilled with one); or a promise that is rejected; or a
    promise that is never settled. *)
Inductive HandlerResult :=
  | HThrows (t : Thrown)
  | HFulfils (r : IncomingResponse)
  | HRejects (t : Thrown)
  | HNever.

Record ClientOptions := {
  opt_serverUrl : option string;
  opt_apiKey : string;
  opt_protocol : option Protocol;
  opt_port : Z;
  opt_remotePort : option Z;
  opt_onOpen : option (string -> CallbackResult);
  opt_onRequest : option (IncomingRequest -> HandlerResult);
  opt_onError : option (JsError -> CallbackResult);
}.

(** ** What the client does to the outside *)

Inductive Level := info | warn | error.

Record RequestOptions := {
  ro_hostname : string;
  ro_port : Z;
  ro_path : string;
  ro_method : string;
  ro_headers : Headers;
  ro_timeout : Z;
}.

Inductive Effect :=
  (* this.logger *)
  | Log (lvl : Level) (msg : string)
  (* user callbacks *)
  | CallOnOpen (url : string)
  | CallOnRequest (req : IncomingRequest)
  | CallOnError (e : JsError)
  (* control channel [c] *)
  | NewWebSocket (c : nat) (url : string)
  | WsSend (c : nat) (f : Frame)
  | WsPing (c : nat)
  | WsClose (c : nat)
  | SetInterval (c : nat) (ms : Z)
  | ClearInterval (c : nat)
  (* connect() *)
  | Sleep (ms : Z)
  (* local stream socket [k] *)
  | CreateConnection (k : nat) (port : Z) (host : string)
  | SocketWrite (k : nat) (data : Buffer)
  | SocketDestroy (k : nat)
  (* local datagram socket [u] *)
  | CreateSocket (u : nat)
  | DgramSend (u : nat) (data : Buffer) (port : Z) (host : string)
  | DgramClose (u : nat)
  | SetTimeout (u : nat) (ms : Z)
  | ClearTimeout (u : nat)
  (* local HTTP call of activation [h] *)
  | HttpRequest (h : nat) (options : RequestOptions)
  | HttpWrite (h : nat) (data : Buffer)
  | HttpEnd (h : nat)
  | HttpDestroy (h : nat)
  (* an exception nobody caught *)
  | Uncaught (t : Thrown).

(** ** Exceptions and trace *)

Inductive Completion (A : Type) :=
  | Normal (a : A)
  | Abrupt (t : Thrown).
Arguments Normal {A} a.
Arguments Abrupt {A} t.

Definition Js (S A : Type) : Type := S -> Completion A * S * list Effect.

Section JsMonad.
Context {S : Type}.

Definition ret {A} (a : A) : Js S A := fun s => (Normal a, s, []).

Definition throw {A} (t : Thrown) : Js S A := fun s => (Abrupt t, s, []).

Definition bind {A B} (m : Js S A) (k : A -> Js S B) : Js S B :=
  fun s =>
    match m s with
    | (Normal a, s1, e1) => let '(r, s2, e2) := k a s1 in (r, s2, e1 ++ e2)
    | (Abrupt t, s1, e1) => (Abrupt t, s1, e1)
    end.

Definition try_catch {A} (m : Js S A) (handler : Thrown -> Js S A) : Js S A :=
  fun s =>
    match m s with
    | (Normal a, s1, e1) => (Normal a, s1, e1)
    | (Abrupt t, s1, e1) => let '(r, s2, e2) := handler t s1 in (r, s2, e1 ++ e2)
    end.

Definition emit (e : Effect) : Js S unit := fun s => (Normal tt, s, [e]).

Definition get : Js S S := fun s => (Normal s, s, []).

Definition modify (f : S -> S) : Js S unit := fun s => (Normal tt, f s, []).

Definition when (b : bool) (m : Js S unit) : Js S unit :=
  if b then m else ret tt.

(** Calling a user callback: the call is recorded, then it returns or throws. *)
Definition call (e : Effect) (r : CallbackResult) : Js S unit :=
  fun s => (match r with Returns => Normal tt | Throws t => Abrupt t end, s, [e]).
End JsMonad.

Declare Scope js_scope.
Delimit Scope js_scope with js.
Notation "x <- m ;; k" := (bind m (fun x => k))
  (at level 100, m at next level, right associativity) : js_scope.
Notation "m ;;; k" := (bind m (fun _ => k))
  (at level 100, right associativity) : js_scope.

Local Open Scope js_scope.

(** Running an [async] function from a caller that drops its promise: the
    body runs up to its first suspension; an exception that escapes the body
    rejects the dropped promise, which nobody handles. *)
Definition detached {S A} (m : Js S A) (s : S) : option A * S * list Effect :=
  match m s with
  | (Normal a, s1, e1) => (Some a, s1, e1)
  | (Abrupt t, s1, e1) => (None, s1, e1 ++ [Uncaught t])
  end.

(** ** Buffer encodings

    [Buffer.from(s)], [buf.toString()], [buf.toString("base64")] and
    [Buffer.from(s, "base64")] belong to the runtime. *)
Class Codec := {
  utf8_encode : string -> Buffer;
  utf8_decode : Buffer -> string;
  base64_encode : Buffer -> string;
  base64_decode : string -> Buffer;
}.

(** ** The Client object *)

(** The readonly fields, as the constructor fills them. *)
Record Config := {
  serverUrl : string;
  apiKey : string;
  protocol : Protocol;
  port : Z;
  remotePort : Z;
  onOpen : option (string -> CallbackResult);
  onRequest : option (IncomingRequest -> HandlerResult);
  onError : option (JsError -> CallbackResult);
}.

Definition constructor (options : ClientOptions) : Config := {|
  serverUrl := default "wss://api.outray.dev"%string (opt_serverUrl options);
  apiKey := opt_apiKey options;
  protocol := default http (opt_protocol options);
  port := opt_port options;
  remotePort := default 0 (opt_remotePort options);
  onOpen := opt_onOpen options;
  onRequest := opt_onRequest options;
  onError := opt_onError options;
|}.

(** The mutable fields.  [ws] holds the handle of a control channel and
    [tcpConnections] maps a connection id to the handle of a local socket. *)
Record Client := {
  ws : option nat;
  closed : bool;
  tcpConnections : gmap string nat;
}.

Definition new_client : Client :=
  {| ws := None; closed := false; tcpConnections := ∅ |}.

Definition set_ws (v : option nat) (cl : Client) : Client :=
  {| ws := v; closed := closed cl; tcpConnections := tcpConnections cl |}.
Definition set_closed (v : bool) (cl : Client) : Client :=
  {| ws := ws cl; closed := v; tcpConnections := tcpConnections cl |}.
Definition set_tcpConnections (v : gmap string nat) (cl : Client) : Client :=
  {| ws := ws cl; closed := closed cl; tcpConnections := v |}.

(** [this.ws && !this.closed], with the channel at hand when it holds. *)
Definition ws_if_open (cl : Client) : option nat :=
  match ws cl with
  | Some c => if closed cl then None else Some c
  | None => None
  end.

(** ** safeCallback, safeOnError *)

Definition safeCallback {S} (fn : Js S unit) : Js S unit :=
  try_catch fn
    (fun err => emit (Log error ("Callback error: " +:+ String_of err))).

Definition safeOnError {S} (cfg : Config) (err : JsError) : Js S unit :=
  match onError cfg with
  | Some f => safeCallback (call (CallOnError err) (f err))
  | None => ret tt
  end.

(** ** handleRequest, proxyHTTP, sendResponse *)

(** Where an activation of [handleRequest] is suspended. *)
Inductive Suspended :=
  | AtHandler (req : IncomingRequest) (p : HandlerResult)
      (* [await Promise.resolve(this.onRequest(req))] *)
  | AtProxy (req : IncomingRequest)
      (* [await this.proxyHTTP(req)] *)
  | AtSend
      (* [await this.sendResponse(respWithId)], after [ws.send] *)
  | Finished.

(** A header value of [proxyRes.headers]. *)
Inductive HeaderValue :=
  | One (v : string)
  | Many (vs : list string)
  | Undefined.

(** What the local HTTP call of [proxyHTTP] reports: the response has ended
    (with its status code, headers and the chunks collected by the ["data"]
    handler), ["error"], or ["timeout"]. *)
Inductive ProxyEvent :=
  | ProxyEnd (status : option Z) (hs : list (string * HeaderValue)) (chunks : list Buffer)
  | ProxyError (err : JsError)
  | ProxyTimeout.

(** What resumes a suspended activation. *)
Inductive RequestEvent :=
  | HandlerSettled
  | Proxy (ev : ProxyEvent)
  | SendDone (err : option JsError).

Section Requests.
Context `{Codec} {S : Type}.
Variable cfg : Config.

(** [sendResponse] up to the call of [ws.send]; a rejected promise is the
    exception its [await] raises. *)
Definition sendResponse (cl : Client) (resp : IncomingResponse) (id : string)
  : Js S unit :=
  match ws_if_open cl with
  | None => throw (ThrownError (mkError "Error" "Client is closed"))
  | Some c =>
      let body :=
        match resp_body resp with
        | Some (BodyBuffer b) => utf8_decode b
        | Some (BodyString s) => s
        | None => ""%string
        end in
      emit (WsSend c (ResponseMessage id (statusCode resp)
                        (default [] (resp_headers resp)) body))
  end.

(** [proxyHTTP] up to [proxyReq.end()]. *)
Definition proxyHTTP (h : nat) (req : IncomingRequest) : Js S unit :=
  let options := {|
    ro_hostname := "localhost";
    ro_port := port cfg;
    ro_path := path req;
    ro_method := method req;
    ro_headers := headers req;
    ro_timeout := 30000;
  |} in
  emit (HttpRequest h options) ;;;
  match body req with
  | Some b => emit (HttpWrite h b)
  | None => ret tt
  end ;;;
  emit (HttpEnd h).

(** The loop over [Object.entries(proxyRes.headers)]; an empty array
    leaves the key [undefined], which [JSON.stringify] omits. *)
Fixpoint proxy_headers (hs : list (string * HeaderValue)) : Headers :=
  match hs with
  | [] => []
  | (key, One v) :: hs => (key, v) :: proxy_headers hs
  | (key, Many (v :: _)) :: hs => (key, v) :: proxy_headers hs
  | (_, Many []) :: hs => proxy_headers hs
  | (_, Undefined) :: hs => proxy_headers hs
  end.

(** The three handlers that resolve the promise of [proxyHTTP]. *)
Definition proxy_settle (h : nat) (ev : ProxyEvent) : Js S IncomingResponse :=
  match ev with
  | ProxyEnd status hs chunks =>
      ret {| statusCode := default 500 status;
             resp_headers := Some (proxy_headers hs);
             resp_body := Some (BodyBuffer (concat chunks)) |}
  | ProxyError err =>
      ret {| statusCode := 502;
             resp_headers := None;
             resp_body := Some (BodyString ("Proxy Error: " +:+ errMessage err)) |}
  | ProxyTimeout =>
      emit (HttpDestroy h) ;;;
      ret {| statusCode := 504;
             resp_headers := None;
             resp_body := Some (BodyString "Proxy Timeout") |}
  end.

(** The [catch] block of [handleRequest]. *)
Definition handleRequest_catch (err : Thrown) : Js S Suspended :=
  let error_ := toError err in
  emit (Log error ("Error handling request: " +:+ errMessage error_)) ;;;
  safeOnError cfg error_ ;;;
  ret Finished.

(** From [const respWithId] to the suspension at [await this.sendResponse]. *)
Definition handleRequest_send (cl : Client) (req : IncomingRequest)
    (resp : IncomingResponse) : Js S Suspended :=
  sendResponse cl resp (id req) ;;;
  ret AtSend.

(** [handleRequest], from its entry to its first suspension. *)
Definition handleRequest (cl : Client) (h : nat) (req : IncomingRequest)
  : Js S Suspended :=
  try_catch
    (match onRequest cfg with
     | Some f =>
         emit (CallOnRequest req) ;;;
         match f req with
         | HThrows t => throw t
         | p => ret (AtHandler req p)
         end
     | None =>
         if (0 <? port cfg) && bool_decide (protocol cfg = http) then
           proxyHTTP h req ;;;
           ret (AtProxy req)
         else
           handleRequest_send cl req
             {| statusCode := 501;
                resp_headers := None;
                resp_body := Some (BodyString "Not implemented") |}
     end)
    handleRequest_catch.

(** [handleRequest], resumed where it was suspended; [cl] is the client as
    it is at that moment.  An event that does not belong to the suspension
    finds nothing to resume. *)
Definition handleRequest_resume (cl : Client) (h : nat) (at_ : Suspended)
    (ev : RequestEvent) : Js S Suspended :=
  match at_, ev with
  | AtHandler req (HFulfils resp), HandlerSettled =>
      try_catch (handleRequest_send cl req resp) handleRequest_catch
  | AtHandler req (HRejects t), HandlerSettled =>
      try_catch (throw t) handleRequest_catch
  | AtProxy req, Proxy ev =>
      try_catch
        (resp <- proxy_settle h ev ;;
         handleRequest_send cl req resp)
        handleRequest_catch
  | AtSend, SendDone (Some err) =>
      try_catch (throw (ThrownError err)) handleRequest_catch
  | AtSend, SendDone None =>
      ret Finished
  | _, _ => ret at_
  end.
End Requests.

(** ** handleUDPData: one exchange *)

(** The local datagram socket of one exchange: receiving, [close()] called,
    or ["close"] emitted. *)
Inductive DgramState := Receiving | Closing | Closed.

#[global] Instance DgramState_eq_dec : EqDecision DgramState.
Proof. solve_decision. Defined.

(** What the closures of one [handleUDPData] call share: the packet, the
    socket, and whether the 5 s timer is still pending. *)
Record UdpExchange := {
  packetId : string;
  socket : DgramState;
  timeout : bool;
}.

Inductive UdpEvent :=
  | DgramMessage (respData : Buffer)
  | DgramError (err : JsError)
  | TimeoutFires
  | DgramClosed.

(** What Node can deliver: a datagram or an error only while the socket
    receives; the timer while it is pending (["close"] is emitted from
    [process.nextTick], before any timer can run, and clears it); and
    ["close"] once, after [close()]. *)
Definition udp_enabled (x : UdpExchange) (ev : UdpEvent) : bool :=
  match ev with
  | DgramMessage _ | DgramError _ => bool_decide (socket x = Receiving)
  | TimeoutFires => timeout x && bool_decide (socket x = Receiving)
  | DgramClosed => bool_decide (socket x = Closing)
  end.

(** ** Channels, sockets, and the world *)

Inductive ReadyState := CONNECTING | OPEN | CLOSING | CLOSED.

#[global] Instance ReadyState_eq_dec : EqDecision ReadyState.
Proof. solve_decision. Defined.

(** The promise that [connectOnce] returns. *)
Inductive Promise :=
  | Pending
  | Resolved
  | Rejected (reason : Thrown).

(** One [WebSocket] made by [connectOnce], with what its closures hold:
    whether the ["open"] handler has set the ping interval and registered
    the inner ["close"] handler, and the state of the returned promise. *)
Record Channel := {
  readyState : ReadyState;
  pingInterval : bool;
  innerClose : bool;
  lifecycle : Promise;
}.

Inductive ChannelEvent :=
  | WsOpen
  | WsMessage (rawData : RawMessage)
  | WsError (err : JsError)
  | WsClosed
  | PingTick.

(** What the [ws] library can emit in each state of a socket. *)
Definition channel_enabled (ch : Channel) (ev : ChannelEvent) : bool :=
  match ev with
  | WsOpen => bool_decide (readyState ch = CONNECTING)
  | WsMessage _ => bool_decide (readyState ch = OPEN) || bool_decide (readyState ch = CLOSING)
  | WsError _ | WsClosed => negb (bool_decide (readyState ch = CLOSED))
  | PingTick => pingInterval ch
  end.

(** The state in which the library emits the event. *)
Definition readyState_at (rs : ReadyState) (ev : ChannelEvent) : ReadyState :=
  match ev with
  | WsOpen => OPEN
  | WsError _ => CLOSING
  | WsClosed => CLOSED
  | WsMessage _ | PingTick => rs
  end.

(** [ws.close()] starts the closing handshake, or aborts the opening one. *)
Definition readyState_close (rs : ReadyState) : ReadyState :=
  match rs with
  | CLOSED => CLOSED
  | _ => CLOSING
  end.

(** One local stream socket made by [handleTCPConnection]. *)
Record TcpSocket := {
  connId : string;
  destroyed : bool;
  ended : bool;
}.

Definition mark_destroyed (s : TcpSocket) : TcpSocket :=
  {| connId := connId s; destroyed := true; ended := ended s |}.

Inductive TcpEvent :=
  | SocketData (data : Buffer)
  | SocketClose
  | SocketError (err : JsError).

(** A destroyed socket reads nothing more; ["close"] comes once and last. *)
Definition tcp_enabled (s : TcpSocket) (ev : TcpEvent) : bool :=
  match ev with
  | SocketData _ | SocketError _ => negb (destroyed s) && negb (ended s)
  | SocketClose => negb (ended s)
  end.

(** Where the activation of [connect] stands. *)
Inductive Phase :=
  | NotStarted
  | AwaitingConnectOnce (c : nat)
  | Sleeping
  | Returned.

Record World := {
  client : Client;
  channels : list Channel;
  sockets : list TcpSocket;
  exchanges : list UdpExchange;
  requests : list Suspended;
  phase : Phase;
  backoff : Z;
}.

Definition initial : World := {|
  client := new_client;
  channels := [];
  sockets := [];
  exchanges := [];
  requests := [];
  phase := NotStarted;
  backoff := 0;
|}.

Definition upd_client (f : Client -> Client) (w : World) : World :=
  {| client := f (client w); channels := channels w; sockets := sockets w;
     exchanges := exchanges w; requests := requests w; phase := phase w;
     backoff := backoff w |}.
Definition upd_channels (f : list Channel -> list Channel) (w : World) : World :=
  {| client := client w; channels := f (channels w); sockets := sockets w;
     exchanges := exchanges w; requests := requests w; phase := phase w;
     backoff := backoff w |}.
Definition upd_sockets (f : list TcpSocket -> list TcpSocket) (w : World) : World :=
  {| client := client w; channels := channels w; sockets := f (sockets w);
     exchanges := exchanges w; requests := requests w; phase := phase w;
     backoff := backoff w |}.
Definition upd_exchanges (f : list UdpExchange -> list UdpExchange) (w : World) : World :=
  {| client := client w; channels := channels w; sockets := sockets w;
     exchanges := f (exchanges w); requests := requests w; phase := phase w;
     backoff := backoff w |}.
Definition upd_requests (f : list Suspended -> list Suspended) (w : World) : World :=
  {| client := client w; channels := channels w; sockets := sockets w;
     exchanges := exchanges w; requests := f (requests w); phase := phase w;
     backoff := backoff w |}.
Definition set_phase (p : Phase) (w : World) : World :=
  {| client := client w; channels := channels w; sockets := sockets w;
     exchanges := exchanges w; requests := requests w; phase := p;
     backoff := backoff w |}.
Definition set_backoff (b : Z) (w : World) : World :=
  {| client := client w; channels := channels w; sockets := sockets w;
     exchanges := exchanges w; requests := requests w; phase := phase w;
     backoff := b |}.

(** ** Sending from a listener *)

(** What an exception that leaves a listener adds to the trace. *)
Definition escaped {A} (r : Completion A) : list Effect :=
  match r with
  | Normal _ => []
  | Abrupt t => [Uncaught t]
  end.

(** The error of [ws.send] on a socket that has not opened yet. *)
Definition not_open : JsError :=
  mkError "Error" "WebSocket is not open: readyState 0 (CONNECTING)".

(** [this.ws.send(JSON.stringify(msg))] on channel [c], in the world [w]
    that the listener finds: the [ws] library throws while the socket is
    still CONNECTING (the client holds a channel from the moment
    [connectOnce] makes it) and returns in every other state; a frame
    handed to a socket that is closing or closed is discarded there. *)
Definition ws_send {S} (w : World) (c : nat) (msg : Frame) : Js S unit :=
  match channels w !! c with
  | Some ch =>
      if bool_decide (readyState ch = CONNECTING)
      then throw (ThrownError not_open)
      else emit (WsSend c msg)
  | None => emit (WsSend c msg)
  end.

(** The channel a listener sends on: the one the client holds while it is
    not closed, when [ws.send] returns there. *)
Definition sends_on (w : World) : option nat :=
  match ws_if_open (client w) with
  | Some c =>
      match channels w !! c with
      | Some ch => if bool_decide (readyState ch = CONNECTING) then None else Some c
      | None => Some c
      end
  | None => None
  end.

(** The client holds a channel, is not closed, and the channel is still
    CONNECTING: [ws.send] throws. *)
Definition send_throws (w : World) : bool :=
  match ws_if_open (client w) with
  | Some c =>
      match channels w !! c with
      | Some ch => bool_decide (readyState ch = CONNECTING)
      | None => false
      end
  | None => false
  end.

(** ** handleUDPData: the listeners *)

Section Datagrams.
Context `{Codec}.
Variable cfg : Config.

(** [socket.close()] *)
Definition socket_close (u : nat) : Js UdpExchange unit :=
  emit (DgramClose u) ;;;
  modify (fun x => {| packetId := packetId x; socket := Closing; timeout := timeout x |}).

(** The four handlers that [handleUDPData] registers; [w] is the world as
    it is when the handler runs.  When [ws.send] throws, the ["message"]
    listener is left before [socket.close()]. *)
Definition udp_handler (w : World) (u : nat) (ev : UdpEvent) : Js UdpExchange unit :=
  match ev with
  | DgramMessage respData =>
      x <- get ;;
      let respMsg := UDPResponse (packetId x) (base64_encode respData) in
      match ws_if_open (client w) with
      | Some c => ws_send w c respMsg
      | None => ret tt
      end ;;;
      socket_close u
  | DgramError err =>
      safeOnError cfg err ;;;
      socket_close u
  | TimeoutFires =>
      modify (fun x => {| packetId := packetId x; socket := socket x; timeout := false |}) ;;;
      socket_close u
  | DgramClosed =>
      emit (ClearTimeout u) ;;;
      modify (fun x => {| packetId := packetId x; socket := Closed; timeout := false |})
  end.

(** One event of an exchange, when Node can deliver it. *)
Definition udp_step (w : World) (u : nat) (ev : UdpEvent) : Js UdpExchange unit :=
  fun x => if udp_enabled x ev then udp_handler w u ev x else (Normal tt, x, []).

(** The events of one exchange in the order they come, each with the
    world as it is at that moment; the trace of what they do.  An
    exception that leaves a listener is nobody's, and the exchange goes on
    as the listener left it. *)
Fixpoint udp_run (u : nat) (x : UdpExchange) (sched : list (World * UdpEvent))
  : UdpExchange * list Effect :=
  match sched with
  | [] => (x, [])
  | (w, ev) :: sched =>
      let '(r, x1, e1) := udp_step w u ev x in
      let '(x2, e2) := udp_run u x1 sched in
      (x2, e1 ++ escaped r ++ e2)
  end.
End Datagrams.

Section ClientMethods.
Context `{Codec}.
Variable cfg : Config.

(** *** Stream bridge *)

Definition handleTCPConnection (connId : string) : Js World unit :=
  w <- get ;;
  let k := length (sockets w) in
  emit (CreateConnection k (port cfg) "localhost") ;;;
  modify (upd_sockets (fun l => l ++ [{| connId := connId; destroyed := false; ended := false |}])) ;;;
  modify (upd_client (fun cl => set_tcpConnections (<[connId := k]> (tcpConnections cl)) cl)).

Definition handleTCPData (connId : string) (dataB64 : string) : Js World unit :=
  w <- get ;;
  match tcpConnections (client w) !! connId with
  | None => ret tt
  | Some k => emit (SocketWrite k (base64_decode dataB64))
  end.

(** [localSocket.destroy()] *)
Definition socket_destroy (k : nat) : Js World unit :=
  emit (SocketDestroy k) ;;;
  modify (upd_sockets (alter mark_destroyed k)).

(** The three handlers that [handleTCPConnection] registers on socket [k],
    which closed over [connId].  No [try] stands around [ws.send] in the
    ["data"] listener: when it throws, the listener is left by the
    exception. *)
Definition tcp_handler (k : nat) (s : TcpSocket) (ev : TcpEvent) : Js World unit :=
  match ev with
  | SocketData data =>
      let msg := TCPData (connId s) (base64_encode data) in
      w <- get ;;
      match ws_if_open (client w) with
      | Some c => ws_send w c msg
      | None => ret tt
      end
  | SocketClose =>
      modify (upd_sockets (alter (fun s => {| connId := connId s; destroyed := destroyed s; ended := true |}) k)) ;;;
      modify (upd_client (fun cl => set_tcpConnections (delete (connId s) (tcpConnections cl)) cl))
  | SocketError err =>
      safeOnError cfg err ;;;
      socket_destroy k ;;;
      modify (upd_client (fun cl => set_tcpConnections (delete (connId s) (tcpConnections cl)) cl))
  end.

(** *** Datagram bridge *)

Definition handleUDPData (packetId : string) (data : string) : Js World unit :=
  w <- get ;;
  let u := length (exchanges w) in
  emit (CreateSocket u) ;;;
  let data := base64_decode data in
  emit (SetTimeout u 5000) ;;;
  emit (DgramSend u data (port cfg) "localhost") ;;;
  modify (upd_exchanges (fun l => l ++ [{| packetId := packetId; socket := Receiving; timeout := true |}])).

(** *** HTTP bridge *)

(** A call of the [async] method [handleRequest] whose promise is dropped:
    the activation gets the next handle. *)
Definition handleRequest_call (req : IncomingRequest) : Js World unit :=
  fun w =>
    let h := length (requests w) in
    match detached (handleRequest cfg (client w) h req) w with
    | (Some at_, w1, e1) => (Normal tt, upd_requests (fun l => l ++ [at_]) w1, e1)
    | (None, w1, e1) => (Normal tt, upd_requests (fun l => l ++ [Finished]) w1, e1)
    end.

(** *** handleMessage *)

Definition JSON_parse (rawData : RawMessage) : Js World (option (option string * Fields)) :=
  match rawData with
  | Unparseable why => throw (ThrownError (mkError "SyntaxError" why))
  | JsonNull => ret None
  | Parsed type data => ret (Some (type, data))
  end.

(** [data.type] *)
Definition msgType_of (parsed : option (option string * Fields)) : Js World (option string * Fields) :=
  match parsed with
  | None => throw (ThrownError (mkError "TypeError" "Cannot read properties of null (reading 'type')"))
  | Some v => ret v
  end.

Definition handleMessage (rawData : RawMessage) : Js World unit :=
  try_catch
    (parsed <- JSON_parse rawData ;;
     typed <- msgType_of parsed ;;
     let '(msgType, data) := typed in
     match msgType with
     | None => ret tt
     | Some msgType =>
         if String.eqb msgType MessageType.TUNNEL_OPENED then
           match onOpen cfg with
           | Some f => safeCallback (call (CallOnOpen (f_url data)) (f (f_url data)))
           | None => ret tt
           end
         else if String.eqb msgType MessageType.TCP_CONNECTION then
           handleTCPConnection (f_connectionId data)
         else if String.eqb msgType MessageType.TCP_DATA then
           handleTCPData (f_connectionId data) (f_data data)
         else if String.eqb msgType MessageType.UDP_DATA then
           handleUDPData (f_packetId data) (f_data data)
         else if String.eqb msgType MessageType.REQUEST then
           handleRequest_call {|
             id := f_requestId data;
             method := f_method data;
             path := f_path data;
             headers := default [] (f_headers data);
             body := match f_body data with
                     | Some s => if String.eqb s "" then None else Some (utf8_encode s)
                     | None => None
                     end;
           |}
         else if String.eqb msgType MessageType.ERROR then
           safeOnError cfg (mkError "Error" (f_message data))
         else ret tt
     end)
    (fun err => emit (Log error ("Failed to parse message: " +:+ String_of err))).

(** *** connectOnce *)

(** The body of the promise executor. *)
Definition connectOnce : Js World nat :=
  w <- get ;;
  let c := length (channels w) in
  emit (NewWebSocket c (serverUrl cfg)) ;;;
  modify (upd_channels (fun l => l ++ [{| readyState := CONNECTING; pingInterval := false;
                                         innerClose := false; lifecycle := Pending |}])) ;;;
  modify (upd_client (set_ws (Some c))) ;;;
  modify (upd_client (set_closed false)) ;;;
  ret c.

(** [resolve()] and [reject(err)] of the promise of channel [c]: a settled
    promise stays as it is. *)
Definition settle (c : nat) (p : Promise) : Js World unit :=
  modify (upd_channels (alter (fun ch =>
    {| readyState := readyState ch; pingInterval := pingInterval ch;
       innerClose := innerClose ch;
       lifecycle := match lifecycle ch with Pending => p | q => q end |}) c)).

(** The handlers that [connectOnce] registers on channel [c]. *)
Definition channel_handler (c : nat) (ch : Channel) (ev : ChannelEvent) : Js World unit :=
  match ev with
  | WsOpen =>
      let handshake := OpenTunnelRequest (apiKey cfg) (protocol cfg) (remotePort cfg) in
      emit (WsSend c handshake) ;;;
      emit (SetInterval c 9000) ;;;
      modify (upd_channels (alter (fun ch =>
        {| readyState := readyState ch; pingInterval := true;
           innerClose := true; lifecycle := lifecycle ch |}) c))
  | PingTick =>
      if bool_decide (readyState ch = OPEN) then emit (WsPing c) else ret tt
  | WsMessage rawData =>
      handleMessage rawData
  | WsError err =>
      settle c (Rejected (ThrownError err))
  | WsClosed =>
      modify (upd_client (set_ws None)) ;;;
      if innerClose ch then
        emit (ClearInterval c) ;;;
        modify (upd_channels (alter (fun ch =>
          {| readyState := readyState ch; pingInterval := false;
             innerClose := innerClose ch; lifecycle := lifecycle ch |}) c)) ;;;
        settle c Resolved
      else ret tt
  end.

(** *** connect *)

Definition maxBackoff : Z := 30000.

(** The loop test and, when it holds, the call of [connectOnce] at which
    the activation is suspended. *)
Definition connect_loop : Js World unit :=
  w <- get ;;
  if closed (client w) then modify (set_phase Returned)
  else
    c <- connectOnce ;;
    modify (set_phase (AwaitingConnectOnce c)).

(** [connect], from its entry. *)
Definition connect : Js World unit :=
  modify (set_backoff 1000) ;;;
  connect_loop.

(** [connect], resumed when the promise of [connectOnce] is settled:
    the rest of the [try] block, or the [catch] block up to [sleep]. *)
Definition connect_resume (p : Promise) : Js World unit :=
  match p with
  | Pending => ret tt
  | Resolved =>
      modify (set_backoff 1000) ;;;
      connect_loop
  | Rejected err =>
      let error_ := toError err in
      w <- get ;;
      emit (Log warn ("Connection error: " +:+ errMessage error_ +:+ ". Retrying in "
                      +:+ pretty (backoff w) +:+ "ms...")) ;;;
      safeOnError cfg error_ ;;;
      emit (Sleep (backoff w)) ;;;
      modify (set_phase Sleeping)
  end.

(** [connect], resumed when [sleep] is over. *)
Definition connect_wake : Js World unit :=
  w <- get ;;
  modify (set_backoff (Z.min (backoff w * 2) maxBackoff)) ;;;
  connect_loop.

(** *** close *)

Definition close : Js World unit :=
  modify (upd_client (set_closed true)) ;;;
  w <- get ;;
  foldr (fun k rest => socket_destroy k ;;; rest) (ret tt)
        (map_to_list (tcpConnections (client w))).*2 ;;;
  modify (upd_client (set_tcpConnections ∅)) ;;;
  w <- get ;;
  match ws (client w) with
  | Some c =>
      emit (WsClose c) ;;;
      modify (upd_channels (alter (fun ch =>
        {| readyState := readyState_close (readyState ch); pingInterval := pingInterval ch;
           innerClose := innerClose ch; lifecycle := lifecycle ch |}) c)) ;;;
      modify (upd_client (set_ws None))
  | None => ret tt
  end.
End ClientMethods.

(** ** The client in its environment *)

(** What can happen to a client: the application calls [connect] or
    [close]; a channel, a local socket, a datagram exchange or a local HTTP
    call reports an event; a suspended activation is resumed. *)
Inductive Event :=
  | CallConnect
  | CallClose
  | OnChannel (c : nat) (ev : ChannelEvent)
  | ConnectOnceSettled
  | SleepOver
  | OnSocket (k : nat) (ev : TcpEvent)
  | OnDgram (u : nat) (ev : UdpEvent)
  | OnRequest (h : nat) (ev : RequestEvent).

Section Environment.
Context `{Codec}.
Variable cfg : Config.

(** A handler that works on one exchange, run on the exchange [u] of the world. *)
Definition on_exchange (u : nat) (m : Js UdpExchange unit) : Js World unit :=
  fun w =>
    match exchanges w !! u with
    | Some x => let '(r, x1, e) := m x in (r, upd_exchanges (<[u := x1]>) w, e)
    | None => (Normal tt, w, [])
    end.

(** The callback that the event invokes, when the event can happen: at
    most one activation of [connect] runs at a time, and each object emits
    what [channel_enabled], [tcp_enabled] and [udp_enabled] allow. *)
Definition dispatch (ev : Event) : Js World unit :=
  match ev with
  | CallConnect =>
      w <- get ;;
      match phase w with
      | NotStarted | Returned => connect cfg
      | _ => ret tt
      end
  | CallClose => close
  | OnChannel c ev =>
      w <- get ;;
      match channels w !! c with
      | Some ch =>
          if channel_enabled ch ev then
            let ch := {| readyState := readyState_at (readyState ch) ev;
                         pingInterval := pingInterval ch;
                         innerClose := innerClose ch;
                         lifecycle := lifecycle ch |} in
            modify (upd_channels (<[c := ch]>)) ;;;
            channel_handler cfg c ch ev
          else ret tt
      | None => ret tt
      end
  | ConnectOnceSettled =>
      w <- get ;;
      match phase w with
      | AwaitingConnectOnce c =>
          match channels w !! c with
          | Some ch => connect_resume cfg (lifecycle ch)
          | None => ret tt
          end
      | _ => ret tt
      end
  | SleepOver =>
      w <- get ;;
      match phase w with
      | Sleeping => connect_wake cfg
      | _ => ret tt
      end
  | OnSocket k ev =>
      w <- get ;;
      match sockets w !! k with
      | Some s => if tcp_enabled s ev then tcp_handler cfg k s ev else ret tt
      | None => ret tt
      end
  | OnDgram u ev =>
      w <- get ;;
      on_exchange u (udp_step cfg w u ev)
  | OnRequest h ev =>
      w <- get ;;
      match requests w !! h with
      | Some at_ =>
          at_ <- handleRequest_resume cfg (client w) h at_ ev ;;
          modify (upd_requests (<[h := at_]>))
      | None => ret tt
      end
  end.

(** One event; an exception that leaves the callback is nobody's. *)
Definition step (w : World) (ev : Event) : World * list Effect :=
  match dispatch ev w with
  | (Normal _, w1, e) => (w1, e)
  | (Abrupt t, w1, e) => (w1, e ++ [Uncaught t])
  end.

(** A sequence of events, and everything the client does along it. *)
Fixpoint run (w : World) (evs : list Event) : World * list Effect :=
  match evs with
  | [] => (w, [])
  | ev :: evs =>
      let '(w1, e1) := step w ev in
      let '(w2, e2) := run w1 evs in
      (w2, e1 ++ e2)
  end.
End Environment.

(** ** Reading a trace *)

Definition is_send (e : Effect) : bool :=
  match e with WsSend _ _ => true | _ => false end.


Definition is_udp_response_to (packetId : string) (e : Effect) : bool :=
  match e with
  | WsSend _ (UDPResponse p _) => String.eqb p packetId
  | _ => false
  end.

Definition is_uncaught (e : Effect) : bool :=
  match e with Uncaught _ => true | _ => false end.

Definition is_log (lvl : Level) (e : Effect) : bool :=
  match e, lvl with
  | Log info _, info | Log warn _, warn | Log error _, error => true
  | _, _ => false
  end.

(** ** A concrete setting for examples *)

(** Bytes as characters, one for one (no real base64). *)
#[local] Instance sample_codec : Codec := {|
  utf8_encode := String.list_byte_of_string;
  utf8_decode := String.string_of_list_byte;
  base64_encode := String.string_of_list_byte;
  base64_decode := String.list_byte_of_string;
|}.

Definition sample_options : ClientOptions := {|
  opt_serverUrl := None;
  opt_apiKey := "key";
  opt_protocol := None;
  opt_port := 3000;
  opt_remotePort := None;
  opt_onOpen := None;
  opt_onRequest := None;
  opt_onError := None;
|}.

Definition no_fields : Fields := {|
  f_url := ""; f_connectionId := ""; f_data := ""; f_packetId := "";
  f_requestId := ""; f_method := ""; f_path := ""; f_headers := None;
  f_body := None; f_message := "";
|}.


(** ** One activation of handleRequest, followed alone *)

Section Activation.
Context `{Codec}.
Variable cfg : Config.

(** The events of one activation in the order they come, each with the
    client as it is at that moment; where the activation ends up and the
    trace of what it does. *)
Fixpoint request_run (h : nat) (at_ : Suspended) (sched : list (Client * RequestEvent))
  : Suspended * list Effect :=
  match sched with
  | [] => (at_, [])
  | (cl, ev) :: sched =>
      match handleRequest_resume cfg cl h at_ ev tt with
      | (Normal at1, _, e1) =>
          let '(at2, e2) := request_run h at1 sched in (at2, e1 ++ e2)
      | (Abrupt t, _, e1) => (Finished, e1 ++ [Uncaught t])
      end
  end.

(** The activation from the call on. *)
Definition request_life (cl : Client) (h : nat) (req : IncomingRequest)
    (sched : list (Client * RequestEvent)) : Suspended * list Effect :=
  match handleRequest cfg cl h req tt with
  | (Normal at0, _, e0) =>
      let '(at1, e1) := request_run h at0 sched in (at1, e0 ++ e1)
  | (Abrupt t, _, e0) => (Finished, e0 ++ [Uncaught t])
  end.

(** What [safeOnError(err)] leaves in the trace. *)
Definition reported (err : JsError) : list Effect :=
  match onError cfg with
  | Some g =>
      CallOnError err ::
      match g err with
      | Returns => []
      | Throws t => [Log error ("Callback error: " +:+ String_of t)]
      end
  | None => []
  end.
End Activation.



(** The event brings the response that the activation is waiting for. *)
Definition brings_response (at_ : Suspended) (ev : RequestEvent) : bool :=
  match at_, ev with
  | AtHandler _ (HFulfils _), HandlerSettled => true
  | AtProxy _, Proxy _ => true
  | _, _ => false
  end.


(** [resp.body instanceof Buffer ? resp.body.toString() : resp.body ?? ""] *)
Definition body_text `{Codec} (resp : IncomingResponse) : string :=
  match resp_body resp with
  | Some (BodyBuffer b) => utf8_decode b
  | Some (BodyString s) => s
  | None => ""
  end.

(** The [response] frame for [resp] under request id [id]. *)
Definition response_frame `{Codec} (id : string) (resp : IncomingResponse) : Frame :=
  ResponseMessage id (statusCode resp) (default [] (resp_headers resp)) (body_text resp).

Definition handler_200 (req : IncomingRequest) : HandlerResult :=
  HFulfils {| statusCode := 200; resp_headers := None;
              resp_body := Some (BodyString "ok") |}.

Definition cfg_handler_200 : Config := constructor {|
  opt_serverUrl := None; opt_apiKey := "key"; opt_protocol := None;
  opt_port := 3000; opt_remotePort := None; opt_onOpen := None;
  opt_onRequest := Some handler_200; opt_onError := None |}.

Definition sample_request : IncomingRequest :=
  {| id := "r1"; method := "GET"; path := "/x"; headers := []; body := None |}.

(** A client that holds channel 0 and is not closed. *)
Definition open_client : Client := set_ws (Some 0%nat) new_client.

Definition handler_throws (req : IncomingRequest) : HandlerResult :=
  HThrows (ThrownError (mkError "Error" "boom")).

Definition handler_rejects (req : IncomingRequest) : HandlerResult :=
  HRejects (ThrownValue "no").

Definition collect_error (err : JsError) : CallbackResult := Returns.

Definition cfg_handler_throws : Config := constructor {|
  opt_serverUrl := None; opt_apiKey := "key"; opt_protocol := None;
  opt_port := 3000; opt_remotePort := None; opt_onOpen := None;
  opt_onRequest := Some handler_throws; opt_onError := Some collect_error |}.

(** ** What a callback may do *)

(** What an activation of [handleRequest] may leave in the trace while the
    client is [cl]: no frame but a [response], and that one only when
    [this.ws && !this.closed] holds; no socket, no channel, nothing uncaught. *)
Definition request_effect (cl : Client) (e : Effect) : bool :=
  match e with
  | WsSend c (ResponseMessage _ _ _ _) => bool_decide (ws_if_open cl = Some c)
  | WsSend _ _ | NewWebSocket _ _ | CreateConnection _ _ _ | CreateSocket _
  | Uncaught _ => false
  | _ => true
  end.

(** ** Sample worlds *)

Definition tcp_connection_frame (connectionId : string) : RawMessage :=
  Parsed (Some MessageType.TCP_CONNECTION)
    {| f_url := ""; f_connectionId := connectionId; f_data := ""; f_packetId := "";
       f_requestId := ""; f_method := ""; f_path := ""; f_headers := None;
       f_body := None; f_message := "" |}.

(** A client with its tunnel up and one stream connection registered. *)
Definition world_with_stream : World :=
  (run (constructor sample_options) initial
     [CallConnect; OnChannel 0 WsOpen;
      OnChannel 0 (WsMessage (tcp_connection_frame "c1"))]).1.

(** A client whose first channel failed after a stream connection was
    registered, and whose second channel is still connecting: the registry
    and the local socket have outlived the channel. *)
Definition world_reconnecting : World :=
  (run (constructor sample_options) initial
     [CallConnect; OnChannel 0 WsOpen;
      OnChannel 0 (WsMessage (tcp_connection_frame "c1"));
      OnChannel 0 (WsError (mkError "Error" "read ECONNRESET"));
      OnChannel 0 WsClosed; ConnectOnceSettled; SleepOver]).1.

(** ** Frames that handleMessage has no case for *)

(** The kinds that the [switch] of [handleMessage] has a case for. *)
Definition inbound_kinds : list string :=
  [MessageType.TUNNEL_OPENED; MessageType.TCP_CONNECTION; MessageType.TCP_DATA;
   MessageType.UDP_DATA; MessageType.REQUEST; MessageType.ERROR].

Definition unknown_kind (type : option string) : bool :=
  match type with
  | None => true
  | Some t => negb (bool_decide (t ∈ inbound_kinds))
  end.

(** The message does not parse, or parses to [null], or is of no known kind. *)
Definition malformed (rawData : RawMessage) : bool :=
  match rawData with
  | Unparseable _ | JsonNull => true
  | Parsed type _ => unknown_kind type
  end.

(** What such a message leaves in the trace: the log line of the [catch]
    block when [JSON.parse] or [data.type] threw, and nothing otherwise. *)
Definition drop_trace (rawData : RawMessage) : list Effect :=
  match rawData with
  | Unparseable why =>
      [Log error ("Failed to parse message: " +:+
                  String_of (ThrownError (mkError "SyntaxError" why)))]
  | JsonNull =>
      [Log error ("Failed to parse message: " +:+
                  String_of (ThrownError
                    (mkError "TypeError" "Cannot read properties of null (reading 'type')")))]
  | Parsed _ _ => []
  end.

(** A client whose tunnel is up. *)
Definition world_open : World :=
  (run (constructor sample_options) initial [CallConnect; OnChannel 0 WsOpen]).1.

Definition throwing_callback {A} (what : string) (_ : A) : CallbackResult :=
  Throws (ThrownError (mkError "Error" what)).

Definition cfg_throwing_callbacks : Config := constructor {|
  opt_serverUrl := None; opt_apiKey := "key"; opt_protocol := None;
  opt_port := 3000; opt_remotePort := None;
  opt_onOpen := Some (throwing_callback "open failed");
  opt_onRequest := None;
  opt_onError := Some (throwing_callback "error failed") |}.

Definition tunnel_opened_frame (url : string) : Fields :=
  {| f_url := url; f_connectionId := ""; f_data := ""; f_packetId := "";
     f_requestId := ""; f_method := ""; f_path := ""; f_headers := None;
     f_body := None; f_message := "" |}.

(** ** One datagram exchange, followed alone *)

(** The exchange as [handleUDPData] sets it up for packet [packetId]. *)
Definition new_exchange (packetId : string) : UdpExchange :=
  {| packetId := packetId; socket := Receiving; timeout := true |}.



(** The response that [proxyHTTP] resolves with. *)
Definition proxy_response (ev : ProxyEvent) : IncomingResponse :=
  match ev with
  | ProxyEnd status hs chunks =>
      {| statusCode := default 500 status;
         resp_headers := Some (proxy_headers hs);
         resp_body := Some (BodyBuffer (concat chunks)) |}
  | ProxyError err =>
      {| statusCode := 502; resp_headers := None;
         resp_body := Some (BodyString ("Proxy Error: " +:+ errMessage err)) |}
  | ProxyTimeout =>
      {| statusCode := 504; resp_headers := None;
         resp_body := Some (BodyString "Proxy Timeout") |}
  end.


(** ** The promise of connectOnce *)

(** What the promise of channel [c] is after the event [ev], when the
    channel was [ch] before: ["error"] rejects a pending promise;
    ["close"] resolves it if the channel had opened, which is when the
    resolving handler was registered; nothing else touches it, and a
    settled promise stays as it is. *)
Definition settles (c : nat) (ch : Channel) (ev : Event) : Promise :=
  match lifecycle ch, ev with
  | Pending, OnChannel c' (WsError err) =>
      if bool_decide (c' = c) && channel_enabled ch (WsError err)
      then Rejected (ThrownError err) else Pending
  | Pending, OnChannel c' WsClosed =>
      if bool_decide (c' = c) && channel_enabled ch WsClosed && innerClose ch
      then Resolved else Pending
  | p, _ => p
  end.

(** ** The backoff of connect *)

(** The delay that [connect] holds after the event [ev], from the world [w]
    that the event finds: 1000 when [connect] is entered and when
    [connectOnce] has resolved; doubled, up to [maxBackoff], when the
    [sleep] that follows a rejection is over; unchanged otherwise. *)
Definition backoff_after (w : World) (ev : Event) : Z :=
  match ev, phase w with
  | CallConnect, (NotStarted | Returned) => 1000
  | SleepOver, Sleeping => Z.min (backoff w * 2) maxBackoff
  | ConnectOnceSettled, AwaitingConnectOnce c =>
      match channels w !! c with
      | Some ch =>
          match lifecycle ch with
          | Resolved => 1000
          | _ => backoff w
          end
      | None => backoff w
      end
  | _, _ => backoff w
  end.

Definition lost : JsError := mkError "Error" "connection lost".

(** A first attempt that fails, the wait, and a second attempt that opens. *)
Definition fail_then_open : list Event :=
  [CallConnect; OnChannel 0 (WsError lost); OnChannel 0 WsClosed;
   ConnectOnceSettled; SleepOver; OnChannel 1 WsOpen].

(** A first attempt whose channel opens and then fails; the wait; a second
    attempt; and only then the ["close"] of the first channel, whose
    listener sets [this.ws = null] while the second channel is connecting. *)
Definition stale_close : list Event :=
  [CallConnect; OnChannel 0 WsOpen; OnChannel 0 (WsError lost);
   ConnectOnceSettled; SleepOver; OnChannel 0 WsClosed].

(** ** The registry of stream sockets *)

(** Every registered connection id leads to a socket that was made for that
    id and that is neither destroyed nor ended. *)
Definition registry_sound (w : World) : Prop :=
  forall id k,
    tcpConnections (client w) !! id = Some k ->
    exists s, sockets w !! k = Some s /\ connId s = id /\
              destroyed s = false /\ ended s = false.

(** The local stream socket [k] can take data. *)
Definition socket_live (w : World) (k : nat) : bool :=
  match sockets w !! k with
  | Some s => negb (destroyed s) && negb (ended s)
  | None => false
  end.

(** The effect writes to a local stream socket that cannot take data. *)
Definition writes_to_dead_socket (w : World) (e : Effect) : bool :=
  match e with
  | SocketWrite k _ => negb (socket_live w k)
  | _ => false
  end.

(** ** Where effects come from *)

(** What an activation of [handleRequest] can leave in the trace: log
    lines, calls of the user's callbacks, [response] frames, and a local
    HTTP call to [localhost] on the configured port under the 30 s timeout. *)
Definition activation_cause (cfg : Config) (e : Effect) : Prop :=
  match e with
  | Log _ _ | CallOnRequest _ | CallOnError _ => True
  | WsSend _ (ResponseMessage _ _ _ _) => True
  | HttpRequest _ o =>
      ro_hostname o = "localhost"%string /\ ro_port o = port cfg /\ ro_timeout o = 30000
  | HttpWrite _ _ | HttpEnd _ | HttpDestroy _ => True
  | _ => False
  end.

(** What one event can leave in the trace, from the world [w] it finds:
    a write only to a socket that the registry holds; a ping only from the
    interval of an open channel; a sleep only for the current backoff; the
    handshake only as a channel opens, with the configured credential, mode
    and remote port; a channel only to the configured server; local sockets, datagrams and
    HTTP calls only to [localhost] on the configured port; timers only with
    the three fixed delays; a frame from a listener only on the channel
    that takes it; and an uncaught exception only from [ws.send] in the
    ["data"] listener of a stream socket or the ["message"] listener of a
    datagram socket, while the channel that the client holds is still
    connecting. *)
Definition step_cause (cfg : Config) (w : World) (ev : Event) (e : Effect) : Prop :=
  match e with
  | Uncaught t =>
      t = ThrownError not_open /\ send_throws w = true /\
      ((exists k data, ev = OnSocket k (SocketData data)) \/
       (exists u respData, ev = OnDgram u (DgramMessage respData)))
  | WsSend c (TCPData _ _) | WsSend c (UDPResponse _ _) => sends_on w = Some c
  | SocketWrite k _ => exists id, tcpConnections (client w) !! id = Some k
  | WsPing c =>
      ev = OnChannel c PingTick /\
      exists ch, channels w !! c = Some ch /\ readyState ch = OPEN /\ pingInterval ch = true
  | Sleep ms => ms = backoff w /\ exists c, phase w = AwaitingConnectOnce c
  | NewWebSocket c url => c = length (channels w) /\ url = serverUrl cfg
  | WsSend c (OpenTunnelRequest a p r) =>
      (a = apiKey cfg /\ p = protocol cfg /\ r = remotePort cfg) /\
      ev = OnChannel c WsOpen /\
      exists ch, channels w !! c = Some ch /\ readyState ch = CONNECTING
  | WsClose c => ev = CallClose /\ ws (client w) = Some c
  | CreateConnection k p host =>
      k = length (sockets w) /\ p = port cfg /\ host = "localhost"%string
  | CreateSocket u => u = length (exchanges w)
  | DgramSend u _ p host =>
      u = length (exchanges w) /\ p = port cfg /\ host = "localhost"%string
  | SetTimeout u ms => u = length (exchanges w) /\ ms = 5000
  | SetInterval c ms => ev = OnChannel c WsOpen /\ ms = 9000
  | HttpRequest _ o =>
      ro_hostname o = "localhost"%string /\ ro_port o = port cfg /\ ro_timeout o = 30000
  | _ => True
  end.

(** The effect reaches out only where the configuration says: a channel to
    the configured server, and a stream socket, a datagram or an HTTP call
    to [localhost] on the configured port. *)
Definition stays_local (cfg : Config) (e : Effect) : Prop :=
  match e with
  | NewWebSocket _ url => url = serverUrl cfg
  | CreateConnection _ p host => p = port cfg /\ host = "localhost"%string
  | DgramSend _ _ p host => p = port cfg /\ host = "localhost"%string
  | HttpRequest _ o => ro_hostname o = "localhost"%string /\ ro_port o = port cfg
  | _ => True
  end.

(** A channel whose ping interval is set has opened and has not closed. *)
Definition intervals_sound (w : World) : Prop :=
  Forall (fun ch =>
            pingInterval ch = true ->
            innerClose ch = true /\
            (readyState ch = OPEN \/ readyState ch = CLOSING))
         (channels w).

(** Once [connect] has been called the backoff is between 1 s and 30 s. *)
Definition backoff_sound (w : World) : Prop :=
  phase w <> NotStarted -> 1000 <= backoff w <= 30000.

(** The effect is a sleep outside 1 s .. 30 s. *)
Definition sleeps_out_of_range (e : Effect) : bool :=
  match e with
  | Sleep ms => negb ((1000 <=? ms) && (ms <=? 30000))
  | _ => false
  end.

(** ** One channel, followed alone *)

(** What one event makes of the channel [c], which it finds as [ch]: the
    channel's own events move it, [close] moves the channel that the client
    holds, and nothing else touches it. *)
Definition channel_after (w : World) (ev : Event) (c : nat) (ch : Channel) : Channel :=
  match ev with
  | OnChannel c' cev =>
      if bool_decide (c' = c) && channel_enabled ch cev then
        match cev with
        | WsOpen =>
            {| readyState := OPEN; pingInterval := true; innerClose := true;
               lifecycle := lifecycle ch |}
        | WsError err =>
            {| readyState := CLOSING; pingInterval := pingInterval ch;
               innerClose := innerClose ch;
               lifecycle := match lifecycle ch with
                            | Pending => Rejected (ThrownError err)
                            | q => q
                            end |}
        | WsClosed =>
            {| readyState := CLOSED;
               pingInterval := if innerClose ch then false else pingInterval ch;
               innerClose := innerClose ch;
               lifecycle := if innerClose ch
                            then match lifecycle ch with Pending => Resolved | q => q end
                            else lifecycle ch |}
        | WsMessage _ | PingTick => ch
        end
      else ch
  | CallClose =>
      if bool_decide (ws (client w) = Some c) then
        {| readyState := readyState_close (readyState ch);
           pingInterval := pingInterval ch; innerClose := innerClose ch;
           lifecycle := lifecycle ch |}
      else ch
  | _ => ch
  end.

(** The channel that [connectOnce] makes. *)
Definition fresh_channel : Channel :=
  {| readyState := CONNECTING; pingInterval := false; innerClose := false;
     lifecycle := Pending |}.

(** The effect is the handshake frame on channel [c]. *)
Definition is_handshake_on (c : nat) (e : Effect) : bool :=
  match e with
  | WsSend c' (OpenTunnelRequest _ _ _) => bool_decide (c' = c)
  | _ => false
  end.

(** The handshake frame carries the credential, the mode and the remote
    port of the configuration. *)
Definition handshake_as_configured (cfg : Config) (e : Effect) : Prop :=
  match e with
  | WsSend _ (OpenTunnelRequest a p r) =>
      a = apiKey cfg /\ p = protocol cfg /\ r = remotePort cfg
  | _ => True
  end.

(** ** close, seen from outside *)

(** What [close] itself does to the outside: it destroys stream sockets
    and closes a channel, nothing else. *)
Definition close_effect (e : Effect) : bool :=
  match e with
  | SocketDestroy _ | WsClose _ => true
  | _ => false
  end.

(** ** Inbound frames, seen from outside *)

(** What handling one inbound frame can leave in the trace: log lines,
    calls of the user's callbacks, a [response] frame, a new local socket
    or datagram with its timer, a write to a local socket, and a local
    HTTP call.  It closes, destroys and clears nothing, opens no channel,
    and never sleeps. *)
Definition frame_effect (e : Effect) : bool :=
  match e with
  | Log _ _ | CallOnOpen _ | CallOnRequest _ | CallOnError _ => true
  | WsSend _ (ResponseMessage _ _ _ _) => true
  | CreateConnection _ _ _ | SocketWrite _ _ => true
  | CreateSocket _ | DgramSend _ _ _ _ | SetTimeout _ _ => true
  | HttpRequest _ _ | HttpWrite _ _ | HttpEnd _ => true
  | _ => false
  end.

(** What the world [w1] keeps of the world [w]: the channel that the
    client holds and whether it is closed, every channel, the activation
    of [connect], and every socket, exchange and request activation that
    [w] has, to which [w1] may add new ones. *)
Definition only_adds (w w1 : World) : Prop :=
  ws (client w1) = ws (client w) /\
  closed (client w1) = closed (client w) /\
  channels w1 = channels w /\
  phase w1 = phase w /\
  backoff w1 = backoff w /\
  (exists more, sockets w1 = sockets w ++ more) /\
  (exists more, exchanges w1 = exchanges w ++ more) /\
  (exists more, requests w1 = requests w ++ more).

(** ** One datagram exchange: closing *)

Definition is_dgram_close (e : Effect) : bool :=
  match e with DgramClose _ => true | _ => false end.

Definition is_clear_timeout (e : Effect) : bool :=
  match e with ClearTimeout _ => true | _ => false end.

Definition tcp_data_frame (connectionId data : string) : RawMessage :=
  Parsed (Some MessageType.TCP_DATA)
    {| f_url := ""; f_connectionId := connectionId; f_data := data; f_packetId := "";
       f_requestId := ""; f_method := ""; f_path := ""; f_headers := None;
       f_body := None; f_message := "" |}.

Definition error_frame (message : string) : Fields :=
  {| f_url := ""; f_connectionId := ""; f_data := ""; f_packetId := "";
     f_requestId := ""; f_method := ""; f_path := ""; f_headers := None;
     f_body := None; f_message := message |}.

Definition handler_never (req : IncomingRequest) : HandlerResult := HNever.

Definition cfg_handler_never : Config := constructor {|
  opt_serverUrl := None; opt_apiKey := "key"; opt_protocol := None;
  opt_port := 3000; opt_remotePort := None; opt_onOpen := None;
  opt_onRequest := Some handler_never; opt_onError := None |}.

(** * Properties *)

Ltac js :=
  unfold safeOnError, safeCallback, handleRequest_catch, handleRequest_send,
    sendResponse, proxyHTTP, proxy_settle, call, when, bind, try_catch, emit,
    ret, throw, modify, get in *;
  simpl in *.

Section LocalFacts.
Context `{Codec} {S : Type}.
Variable cfg : Config.

Lemma safeCallback_call (e : Effect) (r : CallbackResult) (s : S) :
  safeCallback (call e r) s =
    (Normal tt, s,
     e :: match r with
          | Returns => []
          | Throws t => [Log error ("Callback error: " +:+ String_of t)]
          end).
Proof. js. by destruct r. Qed.

Lemma safeOnError_spec (err : JsError) (s : S) :
  safeOnError cfg err s = (Normal tt, s, reported cfg err).
Proof.
  unfold safeOnError, reported.
  destruct (onError cfg) as [g|]; [|done].
  by rewrite safeCallback_call.
Qed.

Lemma reported_no_send (err : JsError) :
  filter is_send (reported cfg err) = [].
Proof.
  unfold reported. destruct (onError cfg) as [g|]; [|done].
  by destruct (g err).
Qed.

Lemma handleRequest_catch_spec (t : Thrown) (s : S) :
  handleRequest_catch cfg t s =
    (Normal Finished, s,
     Log error ("Error handling request: " +:+ errMessage (toError t))
       :: reported cfg (toError t)).
Proof.
  unfold handleRequest_catch, bind, emit, ret. simpl.
  rewrite safeOnError_spec. simpl. by rewrite app_nil_r.
Qed.

Lemma handleRequest_send_open (cl : Client) (c : nat) req resp (s : S) :
  ws_if_open cl = Some c ->
  try_catch (handleRequest_send cl req resp) (handleRequest_catch cfg) s =
    (Normal AtSend, s, [WsSend c (response_frame (id req) resp)]).
Proof.
  intros Hc. unfold try_catch, handleRequest_send, sendResponse, bind.
  rewrite Hc. reflexivity.
Qed.

Lemma handleRequest_send_closed (cl : Client) req resp (s : S) :
  ws_if_open cl = None ->
  try_catch (handleRequest_send cl req resp) (handleRequest_catch cfg) s =
    (Normal Finished, s,
     Log error "Error handling request: Client is closed"
       :: reported cfg (mkError "Error" "Client is closed")).
Proof.
  intros Hc. unfold try_catch, handleRequest_send, sendResponse, bind.
  rewrite Hc. unfold throw. by rewrite handleRequest_catch_spec.
Qed.
End LocalFacts.

Section ActivationFacts.
Context `{Codec}.
Variable cfg : Config.

Lemma request_run_Finished h sched :
  request_run cfg h Finished sched = (Finished, []).
Proof.
  induction sched as [|[cl ev] sched IH]; [done|].
  simpl. rewrite IH. by destruct ev.
Qed.

Lemma request_run_AtSend h sched :
  filter is_send (request_run cfg h AtSend sched).2 = [].
Proof.
  induction sched as [|[cl ev] sched IH]; [done|].
  simpl. destruct ev as [|ev|[err|]]; simpl.
  - destruct (request_run cfg h AtSend sched); simpl in *. done.
  - destruct (request_run cfg h AtSend sched); simpl in *. done.
  - unfold try_catch, throw. rewrite handleRequest_catch_spec.
    rewrite request_run_Finished. simpl.
    rewrite app_nil_r. apply reported_no_send.
  - rewrite request_run_Finished. done.
Qed.

(** The options that [proxyHTTP] hands to [http.request]. *)
Lemma proxyHTTP_spec {S} h req (s : S) :
  proxyHTTP cfg h req s =
    (Normal tt, s,
     HttpRequest h {| ro_hostname := "localhost"; ro_port := port cfg;
                      ro_path := path req; ro_method := method req;
                      ro_headers := headers req; ro_timeout := 30000 |}
       :: match body req with Some b => [HttpWrite h b] | None => [] end
       ++ [HttpEnd h]).
Proof. unfold proxyHTTP. js. by destruct (body req). Qed.
End ActivationFacts.

(** ** The HTTP bridge *)

(** C8.  Dispatch of an http-request goes by priority: a configured handler
    is called and the response it fulfils is the one sent, whatever the port
    and mode; with no handler, a port above zero and mode [http], the
    request goes to the local proxy; otherwise the fixed 501 response is
    sent. *)
Theorem dispatch_priority `{Codec} (cfg : Config) (cl cl' : Client) (c h : nat)
    (req : IncomingRequest) :
  (forall f resp, onRequest cfg = Some f -> f req = HFulfils resp ->
     ws_if_open cl' = Some c ->
     request_life cfg cl h req [(cl', HandlerSettled)] =
       (AtSend, [CallOnRequest req; WsSend c (response_frame (id req) resp)])) /\
  (onRequest cfg = None -> 0 < port cfg -> protocol cfg = http ->
     request_life cfg cl h req [] =
       (AtProxy req,
        HttpRequest h {| ro_hostname := "localhost"; ro_port := port cfg;
                         ro_path := path req; ro_method := method req;
                         ro_headers := headers req; ro_timeout := 30000 |}
          :: match body req with Some b => [HttpWrite h b] | None => [] end
          ++ [HttpEnd h])) /\
  (onRequest cfg = None -> ~ (0 < port cfg /\ protocol cfg = http) ->
     ws_if_open cl = Some c ->
     request_life cfg cl h req [] =
       (AtSend, [WsSend c (ResponseMessage (id req) 501 [] "Not implemented")])).
Proof.
  split; [|split].
  - intros f resp Hf Hr Hc. unfold request_life, handleRequest.
    rewrite Hf. unfold try_catch at 1, bind at 1. simpl. rewrite Hr. simpl.
    rewrite (handleRequest_send_open cfg cl' c req resp tt Hc). done.
  - intros Hf Hp Hm. unfold request_life, handleRequest. rewrite Hf.
    apply Z.ltb_lt in Hp. rewrite Hp, Hm. simpl.
    unfold try_catch, bind at 1. rewrite proxyHTTP_spec. simpl.
    by rewrite !app_nil_r.
  - intros Hf Hn Hc. unfold request_life, handleRequest. rewrite Hf.
    destruct ((0 <? port cfg) && bool_decide (protocol cfg = http)) eqn:Hb.
    + apply andb_prop in Hb as [Hp Hm]. apply Z.ltb_lt in Hp.
      apply bool_decide_eq_true in Hm. tauto.
    + rewrite (handleRequest_send_open cfg cl c req _ tt Hc). done.
Qed.

Lemma dispatch_priority_witness :
  request_life cfg_handler_200 open_client 0 sample_request [(open_client, HandlerSettled)] =
    (AtSend, [CallOnRequest sample_request; WsSend 0 (ResponseMessage "r1" 200 [] "ok")]) /\
  request_life (constructor sample_options) open_client 0 sample_request [] =
    (AtProxy sample_request,
     [HttpRequest 0 {| ro_hostname := "localhost"; ro_port := 3000; ro_path := "/x";
                       ro_method := "GET"; ro_headers := []; ro_timeout := 30000 |};
      HttpEnd 0]).
Proof.
  split.
  - destruct (dispatch_priority cfg_handler_200 open_client open_client 0 0 sample_request)
      as [Hhandler _].
    exact (Hhandler handler_200 _ eq_refl eq_refl eq_refl).
  - destruct (dispatch_priority (constructor sample_options) open_client open_client 0 0
                sample_request) as (_ & Hproxy & _).
    apply Hproxy; [reflexivity | reflexivity | reflexivity].
Defined.

Section MonadFacts.
Context {S A B : Type}.

Lemma bind_ret (a : A) (k : A -> Js S B) (s : S) : bind (ret a) k s = k a s.
Proof. unfold bind, ret. by destruct (k a s) as [[r s1] e]. Qed.

Lemma try_catch_bind_ret (a : A) (k : A -> Js S B) handler (s : S) :
  try_catch (bind (ret a) k) handler s = try_catch (k a) handler s.
Proof. unfold try_catch. by rewrite bind_ret. Qed.

Lemma try_catch_emit (e : Effect) (m : Js S B) handler (s : S) :
  try_catch (bind (emit e) (fun _ => m)) handler s =
    let '(r, s1, es) := try_catch m handler s in (r, s1, e :: es).
Proof.
  unfold try_catch, bind, emit.
  destruct (m s) as [[[b|t] s1] e1]; simpl; [done|].
  by destruct (handler t s1) as [[r s2] e2].
Qed.

Lemma try_catch_emit_ret (e : Effect) (a : A) (k : A -> Js S B) handler (s : S) :
  try_catch (bind (bind (emit e) (fun _ => ret a)) k) handler s =
    let '(r, s1, es) := try_catch (k a) handler s in (r, s1, e :: es).
Proof.
  unfold try_catch, bind, emit, ret.
  destruct (k a s) as [[[b|t] s1] e1]; simpl; [done|].
  by destruct (handler t s1) as [[r s2] e2].
Qed.
End MonadFacts.

Section ActivationNormal.
Context `{Codec}.
Variable cfg : Config.



End ActivationNormal.

Lemma request_run_cons `{Codec} cfg h at_ cl ev sched :
  request_run cfg h at_ ((cl, ev) :: sched) =
    match handleRequest_resume cfg cl h at_ ev tt with
    | (Normal at1, _, e1) =>
        let '(at2, e2) := request_run cfg h at1 sched in (at2, e1 ++ e2)
    | (Abrupt t, _, e1) => (Finished, e1 ++ [Uncaught t])
    end.
Proof. reflexivity. Qed.

(** C7.  With no handler, a port above zero and mode [http], the request is
    forwarded to [localhost] on the configured port with its method, path,
    headers and body, under a 30 s timeout.  When the local call reports an
    error, the response sent has status 502 and a body that says why; when
    it reports the timeout, the call is destroyed and the response sent has
    status 504.  Whatever the call reports afterwards adds no response. *)
Theorem proxy_forwards_and_degrades `{Codec} (cfg : Config) (cl cl' : Client)
    (c h : nat) (req : IncomingRequest) (sched : list (Client * RequestEvent)) :
  onRequest cfg = None -> 0 < port cfg -> protocol cfg = http ->
  ws_if_open cl' = Some c ->
  let forwarded :=
    HttpRequest h {| ro_hostname := "localhost"; ro_port := port cfg;
                     ro_path := path req; ro_method := method req;
                     ro_headers := headers req; ro_timeout := 30000 |}
      :: match body req with Some b => [HttpWrite h b] | None => [] end
      ++ [HttpEnd h] in
  request_life cfg cl h req [] = (AtProxy req, forwarded) /\
  (forall err,
     request_life cfg cl h req [(cl', Proxy (ProxyError err))] =
       (AtSend,
        forwarded ++
        [WsSend c (ResponseMessage (id req) 502 []
                     ("Proxy Error: " +:+ errMessage err))]) /\
     filter is_send (request_life cfg cl h req ((cl', Proxy (ProxyError err)) :: sched)).2 =
       [WsSend c (ResponseMessage (id req) 502 []
                    ("Proxy Error: " +:+ errMessage err))]) /\
  request_life cfg cl h req [(cl', Proxy ProxyTimeout)] =
    (AtSend,
     forwarded ++
     [HttpDestroy h; WsSend c (ResponseMessage (id req) 504 [] "Proxy Timeout")]) /\
  filter is_send (request_life cfg cl h req ((cl', Proxy ProxyTimeout) :: sched)).2 =
    [WsSend c (ResponseMessage (id req) 504 [] "Proxy Timeout")].
Proof.
  intros Hf Hp Hm Hc forwarded.
  assert (Hstart : handleRequest cfg cl h req tt = (Normal (AtProxy req), tt, forwarded)).
  { unfold handleRequest. rewrite Hf. apply Z.ltb_lt in Hp. rewrite Hp, Hm. simpl.
    unfold try_catch, bind at 1. rewrite proxyHTTP_spec. simpl.
    by rewrite !app_nil_r. }
  assert (Hfwd : filter is_send forwarded = []).
  { unfold forwarded. simpl. by destruct (body req). }
  assert (Herr : forall err,
    handleRequest_resume cfg cl' h (AtProxy req) (Proxy (ProxyError err)) tt =
      (Normal AtSend, tt,
       [WsSend c (ResponseMessage (id req) 502 [] ("Proxy Error: " +:+ errMessage err))])).
  { intros err. simpl. rewrite try_catch_bind_ret.
    by rewrite (handleRequest_send_open cfg cl' c req _ tt Hc). }
  assert (Htime :
    handleRequest_resume cfg cl' h (AtProxy req) (Proxy ProxyTimeout) tt =
      (Normal AtSend, tt,
       [HttpDestroy h; WsSend c (ResponseMessage (id req) 504 [] "Proxy Timeout")])).
  { simpl. rewrite try_catch_emit_ret.
    by rewrite (handleRequest_send_open cfg cl' c req _ tt Hc). }
  unfold request_life. rewrite Hstart.
  split; [by simpl; rewrite app_nil_r|]. split; [intros err; split|split].
  - rewrite request_run_cons, Herr. done.
  - rewrite request_run_cons, Herr.
    pose proof (request_run_AtSend cfg h sched) as Hrest.
    destruct (request_run cfg h AtSend sched) as [at2 e2].
    cbn [fst snd] in *. rewrite !filter_app, Hfwd, Hrest. reflexivity.
  - rewrite request_run_cons, Htime. done.
  - rewrite request_run_cons, Htime.
    pose proof (request_run_AtSend cfg h sched) as Hrest.
    destruct (request_run cfg h AtSend sched) as [at2 e2].
    cbn [fst snd] in *. rewrite !filter_app, Hfwd, Hrest. reflexivity.
Qed.

Lemma proxy_forwards_and_degrades_witness :
  request_life (constructor sample_options) open_client 0 sample_request
    [(open_client, Proxy (ProxyError (mkError "Error" "connect ECONNREFUSED")))] =
    (AtSend,
     [HttpRequest 0 {| ro_hostname := "localhost"; ro_port := 3000; ro_path := "/x";
                       ro_method := "GET"; ro_headers := []; ro_timeout := 30000 |};
      HttpEnd 0;
      WsSend 0 (ResponseMessage "r1" 502 [] "Proxy Error: connect ECONNREFUSED")]).
Proof.
  destruct (proxy_forwards_and_degrades (constructor sample_options) open_client
              open_client 0 0 sample_request [] eq_refl eq_refl eq_refl eq_refl)
    as (_ & Herr & _).
  apply Herr.
Defined.

(** C6.  When the user's request handler throws, or the promise it returned
    is rejected, the exception is caught: the activation logs it, hands it
    to [onError] when one is configured, sends no response frame for the
    request, and ends normally, so that nothing reaches the session. *)
Theorem handler_exception_is_reported `{Codec} (cfg : Config) f (t : Thrown)
    (cl cl' : Client) (h : nat) (req : IncomingRequest)
    (sched : list (Client * RequestEvent)) :
  onRequest cfg = Some f ->
  f req = HThrows t \/ f req = HRejects t ->
  request_life cfg cl h req ((cl', HandlerSettled) :: sched) =
    (Finished,
     CallOnRequest req
       :: Log error ("Error handling request: " +:+ errMessage (toError t))
       :: reported cfg (toError t)) /\
  (forall g, onError cfg = Some g -> CallOnError (toError t) ∈ reported cfg (toError t)) /\
  filter is_send (reported cfg (toError t)) = [] /\
  filter is_uncaught (reported cfg (toError t)) = [].
Proof.
  intros Hf Ht. split; [|split; [|split]].
  - unfold request_life, handleRequest. rewrite Hf.
    unfold try_catch at 1, bind at 1. simpl.
    destruct Ht as [-> | ->]; simpl.
    + unfold throw. rewrite handleRequest_catch_spec. simpl.
      rewrite request_run_Finished. simpl. by rewrite app_nil_r.
    + unfold try_catch, throw. rewrite handleRequest_catch_spec.
      rewrite request_run_Finished. simpl. by rewrite app_nil_r.
  - intros g Hg. unfold reported. rewrite Hg. apply list_elem_of_here.
  - apply reported_no_send.
  - unfold reported. destruct (onError cfg) as [g|]; [|done]. by destruct (g _).
Qed.

Lemma handler_exception_is_reported_witness :
  request_life cfg_handler_throws open_client 0 sample_request
    [(open_client, HandlerSettled)] =
    (Finished,
     [CallOnRequest sample_request;
      Log error "Error handling request: boom";
      CallOnError (mkError "Error" "boom")]).
Proof.
  destruct (handler_exception_is_reported cfg_handler_throws handler_throws
              (ThrownError (mkError "Error" "boom")) open_client open_client 0
              sample_request [] eq_refl (or_introl eq_refl)) as [Hlife _].
  exact Hlife.
Defined.

(** ** Symbolic execution of the callbacks *)

Ltac js_world :=
  unfold dispatch, connect, connect_resume, connect_wake,
    channel_handler, settle, tcp_handler, socket_destroy, handleMessage, JSON_parse,
    msgType_of, handleTCPConnection, handleTCPData, handleUDPData, handleRequest_call,
    detached, on_exchange, udp_step, udp_handler, socket_close, ws_send, safeCallback, call;
  unfold bind, try_catch, emit, ret, throw, modify, get; simpl.

Section WorldFacts.
Context `{Codec}.
Variable cfg : Config.

Lemma connect_loop_spec w :
  connect_loop cfg w =
    if closed (client w) then (Normal tt, set_phase Returned w, [])
    else
      let c := length (channels w) in
      (Normal tt,
       set_phase (AwaitingConnectOnce c)
         (upd_client (set_closed false)
            (upd_client (set_ws (Some c))
               (upd_channels
                  (fun l => l ++ [{| readyState := CONNECTING; pingInterval := false;
                                     innerClose := false; lifecycle := Pending |}]) w))),
       [NewWebSocket c (serverUrl cfg)]).
Proof.
  unfold connect_loop, connectOnce, bind, get, modify, emit, ret. simpl.
  by destruct (closed (client w)).
Qed.

Lemma close_loop ks w :
  foldr (fun k rest => socket_destroy k ;;; rest) (ret tt) ks w =
    (Normal tt,
     upd_sockets (fun l => foldl (fun l k => alter mark_destroyed k l) l ks) w,
     SocketDestroy <$> ks).
Proof.
  revert w. induction ks as [|k ks IH]; intros w; simpl.
  - by destruct w.
  - unfold bind at 1. unfold socket_destroy at 1. unfold bind, emit, modify. simpl.
    rewrite IH. by destruct w.
Qed.

Lemma close_spec w :
  close w =
    (Normal tt,
     let ks := (map_to_list (tcpConnections (client w))).*2 in
     let w1 := upd_sockets (fun l => foldl (fun l k => alter mark_destroyed k l) l ks) w in
     let w2 := upd_client (fun _ => {| ws := None; closed := true; tcpConnections := ∅ |}) w1 in
     match ws (client w) with
     | Some c =>
         upd_channels (alter (fun ch =>
           {| readyState := readyState_close (readyState ch);
              pingInterval := pingInterval ch;
              innerClose := innerClose ch; lifecycle := lifecycle ch |}) c) w2
     | None => w2
     end,
     (SocketDestroy <$> (map_to_list (tcpConnections (client w))).*2)
       ++ match ws (client w) with Some c => [WsClose c] | None => [] end).
Proof.
  unfold close. unfold bind at 1. unfold modify at 1. unfold bind at 1.
  unfold get at 1. unfold bind at 1. rewrite close_loop. js_world.
  destruct w as [[wsv cls reg] chs socks exs reqs ph bo]; simpl.
  destruct wsv; simpl; by rewrite ?app_nil_r.
Qed.

Lemma reported_effect cl err : Forall (request_effect cl) (reported cfg err).
Proof.
  unfold reported. destruct (onError cfg) as [g|]; [|constructor].
  destruct (g err); repeat constructor.
Qed.

Lemma try_send_effect {S} cl req resp (s : S) :
  exists at_ e,
    try_catch (handleRequest_send cl req resp) (handleRequest_catch cfg) s =
      (Normal at_, s, e) /\ Forall (request_effect cl) e.
Proof.
  destruct (ws_if_open cl) as [c|] eqn:Hc.
  - rewrite (handleRequest_send_open cfg cl c req resp s Hc).
    eexists _, _; split; [done|]. repeat constructor. unfold response_frame.
    simpl. by rewrite bool_decide_eq_true_2.
  - rewrite (handleRequest_send_closed cfg cl req resp s Hc).
    eexists _, _; split; [done|]. constructor; [done|]. apply reported_effect.
Qed.

Lemma handleRequest_effect {S} cl h req (s : S) :
  exists at_ e,
    handleRequest cfg cl h req s = (Normal at_, s, e) /\
    Forall (request_effect cl) e.
Proof.
  unfold handleRequest. destruct (onRequest cfg) as [f|].
  - unfold try_catch at 1, bind at 1. simpl.
    destruct (f req); simpl; try (eexists _, _; split; [done|]; by repeat constructor).
    unfold throw. rewrite handleRequest_catch_spec.
    eexists _, _; split; [done|]. simpl.
    repeat (constructor; [done|]). apply reported_effect.
  - destruct ((0 <? port cfg) && bool_decide (protocol cfg = http)).
    + unfold try_catch, bind at 1. rewrite proxyHTTP_spec. simpl.
      eexists _, _; split; [done|]. rewrite !app_nil_r.
      constructor; [done|]. apply Forall_app. split; [|by repeat constructor].
      destruct (body req); by repeat constructor.
    + apply try_send_effect.
Qed.

Lemma handleRequest_resume_effect {S} cl h at_ ev (s : S) :
  exists at1 e,
    handleRequest_resume cfg cl h at_ ev s = (Normal at1, s, e) /\
    Forall (request_effect cl) e.
Proof.
  destruct at_ as [req [t|resp|t|]|req| |], ev as [|pev|[err|]]; simpl;
    try (unfold ret; eexists _, _; split; [done|]; constructor; fail);
    try apply try_send_effect;
    try (unfold try_catch, throw; rewrite handleRequest_catch_spec;
         eexists _, _; split; [done|]; simpl; constructor; [done|];
         apply reported_effect).
  destruct pev as [status hs chunks|err|]; unfold proxy_settle.
  - rewrite try_catch_bind_ret. apply try_send_effect.
  - rewrite try_catch_bind_ret. apply try_send_effect.
  - rewrite try_catch_emit_ret.
    destruct (try_send_effect cl req
      {| statusCode := 504; resp_headers := None;
         resp_body := Some (BodyString "Proxy Timeout") |} s) as (at1 & e & -> & He).
    eexists _, _; split; [done|]. by constructor.
Qed.
End WorldFacts.

Ltac js_cases :=
  repeat first
    [ progress simplify_eq
    | match goal with
      | H : context [safeOnError _ _ _] |- _ => rewrite safeOnError_spec in H
      | |- context [safeOnError ?cfg ?err ?s] => rewrite (safeOnError_spec cfg err s)
      | H : context [connect_loop _ _] |- _ => rewrite connect_loop_spec in H
      | |- context [connect_loop ?cfg ?w] => rewrite (connect_loop_spec cfg w)
      | H : context [handleRequest ?cfg ?cl ?h ?req ?s] |- _ =>
          let Heq := fresh in
          destruct (handleRequest_effect cfg cl h req s) as (? & ? & Heq & ?);
          rewrite Heq in H; clear Heq
      | H : context [handleRequest_resume ?cfg ?cl ?h ?a ?ev ?s] |- _ =>
          let Heq := fresh in
          destruct (handleRequest_resume_effect cfg cl h a ev s) as (? & ? & Heq & ?);
          rewrite Heq in H; clear Heq
      | u : unit |- _ => destruct u
      end
    | case_match ].


(** ** close *)

(** C4.  [close()] misses a channel that the client no longer holds.
    After [stale_close] the ["close"] listener of the first channel has set
    [this.ws] to [null] while the second channel is still connecting.
    There [close()] sets the flag and closes nothing; after it has returned
    the second channel opens, the handshake goes out on it, its ping
    interval is set and pings, and a [tcp_connection] frame on it opens a
    local socket and registers it.  Where the client still holds its
    channel, [close()] closes it, and neither a ping nor a reconnect
    follows. *)
Theorem close_misses_the_channel_it_lost :
  let cfg := constructor sample_options in
  let w := (run cfg initial stale_close).1 in
  let w1 := (step cfg w CallClose).1 in
  let later :=
    run cfg w1
      [OnChannel 1 WsOpen; OnChannel 1 PingTick;
       OnChannel 1 (WsMessage (tcp_connection_frame "c1"))] in
  (ws (client w) = None /\ closed (client w) = false /\
   readyState <$> channels w !! 1%nat = Some CONNECTING /\
   phase w = AwaitingConnectOnce 1) /\
  ((step cfg w CallClose).2 = [] /\ closed (client w1) = true /\
   readyState <$> channels w1 !! 1%nat = Some CONNECTING) /\
  (later.2 =
     [WsSend 1 (OpenTunnelRequest "key" http 0); SetInterval 1 9000; WsPing 1;
      CreateConnection 0 3000 "localhost"] /\
   tcpConnections (client later.1) !! ("c1" : string) = Some 0%nat /\
   sockets later.1 = [{| connId := "c1"; destroyed := false; ended := false |}]) /\
  ((step cfg world_open CallClose).2 = [WsClose 0] /\
   (run cfg (step cfg world_open CallClose).1
      [OnChannel 0 PingTick; OnChannel 0 WsClosed; ConnectOnceSettled; CallConnect]).2 =
     [ClearInterval 0]).
Proof. cbv zeta. split_and!; reflexivity. Qed.

Section Messages.
Context `{Codec}.
Variable cfg : Config.

Lemma unknown_kind_eqb t :
  unknown_kind (Some t) = true ->
  String.eqb t MessageType.TUNNEL_OPENED = false /\
  String.eqb t MessageType.TCP_CONNECTION = false /\
  String.eqb t MessageType.TCP_DATA = false /\
  String.eqb t MessageType.UDP_DATA = false /\
  String.eqb t MessageType.REQUEST = false /\
  String.eqb t MessageType.ERROR = false.
Proof.
  unfold unknown_kind, inbound_kinds. intros Hu.
  apply negb_true_iff, bool_decide_eq_false in Hu.
  repeat split; apply String.eqb_neq; intros ->; apply Hu; set_solver.
Qed.

Lemma handleMessage_malformed rawData w :
  malformed rawData = true ->
  handleMessage cfg rawData w = (Normal tt, w, drop_trace rawData).
Proof.
  destruct rawData as [why| |[t|] data]; intros Hm; try reflexivity.
  apply unknown_kind_eqb in Hm as (H1 & H2 & H3 & H4 & H5 & H6).
  js_world. by rewrite H1, H2, H3, H4, H5, H6.
Qed.

Lemma channel_insert_same c (ch : Channel) (l : list Channel) :
  l !! c = Some ch ->
  <[c := {| readyState := readyState ch; pingInterval := pingInterval ch;
            innerClose := innerClose ch; lifecycle := lifecycle ch |}]> l = l.
Proof. intros Hc. destruct ch. by apply list_insert_id. Qed.

Lemma step_malformed w c ch rawData :
  channels w !! c = Some ch ->
  channel_enabled ch (WsMessage rawData) = true ->
  malformed rawData = true ->
  step cfg w (OnChannel c (WsMessage rawData)) = (w, drop_trace rawData).
Proof.
  intros Hc Hen Hm. unfold step, dispatch.
  unfold bind at 1. unfold get at 1. rewrite Hc, Hen.
  unfold bind at 1. unfold modify at 1.
  change (channel_handler cfg c ?x (WsMessage rawData)) with (handleMessage cfg rawData).
  assert (Hw : upd_channels
                 <[c := {| readyState := readyState_at (readyState ch) (WsMessage rawData);
                           pingInterval := pingInterval ch;
                           innerClose := innerClose ch;
                           lifecycle := lifecycle ch |}]> w = w).
  { destruct w as [cl chs socks exs reqs ph bo]. unfold upd_channels. simpl in *.
    by rewrite (channel_insert_same c ch chs Hc). }
  rewrite Hw, (handleMessage_malformed rawData w Hm). done.
Qed.
End Messages.

(** ** handleMessage *)

(** C9, as the code has it.  An inbound message that does not parse (or
    parses to [null]) is logged by the [catch] block and dropped; a message
    of a kind that the [switch] has no case for is dropped without a log
    line.  Either way no frame goes out, nothing changes in the client, and
    the frames that follow are processed as if the message had not come. *)
Theorem malformed_frames_are_dropped `{Codec} (cfg : Config) (w : World) (c : nat)
    (ch : Channel) (rawData : RawMessage) (evs : list Event) :
  channels w !! c = Some ch ->
  channel_enabled ch (WsMessage rawData) = true ->
  malformed rawData = true ->
  step cfg w (OnChannel c (WsMessage rawData)) = (w, drop_trace rawData) /\
  filter is_send (drop_trace rawData) = [] /\
  (forall type data, rawData = Parsed type data -> drop_trace rawData = []) /\
  (forall lvl msg, Log lvl msg ∈ drop_trace rawData ->
     lvl = error /\ exists why, rawData = Unparseable why \/ rawData = JsonNull) /\
  run cfg w (OnChannel c (WsMessage rawData) :: evs) =
    ((run cfg w evs).1, drop_trace rawData ++ (run cfg w evs).2).
Proof.
  intros Hc Hen Hm.
  pose proof (step_malformed cfg w c ch rawData Hc Hen Hm) as Hstep.
  split_and!; try done.
  - by destruct rawData.
  - by intros type data ->.
  - intros lvl msg Hin. destruct rawData as [why| |ty data]; simpl in Hin.
    + apply list_elem_of_singleton in Hin. injection Hin as -> _. eauto.
    + apply list_elem_of_singleton in Hin. injection Hin as -> _.
      split; [done|]. exists ""%string. by right.
    + by apply elem_of_nil in Hin.
  - simpl. rewrite Hstep. by destruct (run cfg w evs).
Qed.

Lemma malformed_frames_are_dropped_witness :
  step (constructor sample_options) world_open
    (OnChannel 0 (WsMessage (Unparseable "Unexpected token"))) =
    (world_open,
     [Log error "Failed to parse message: SyntaxError: Unexpected token"]).
Proof.
  destruct (malformed_frames_are_dropped (constructor sample_options) world_open 0
    {| readyState := OPEN; pingInterval := true; innerClose := true; lifecycle := Pending |}
    (Unparseable "Unexpected token") [] eq_refl eq_refl eq_refl) as [Hstep _].
  exact Hstep.
Defined.

(** C9 as stated fails for the unknown kind: on an open channel, a frame
    whose [type] is ["bogus"] leaves no log line at all. *)
Lemma unknown_kind_is_not_logged :
  malformed (Parsed (Some "bogus") no_fields) = true /\
  (step (constructor sample_options) world_open
     (OnChannel 0 (WsMessage (Parsed (Some "bogus") no_fields)))).2 = [].
Proof. split; reflexivity. Qed.

Section DatagramFacts.
Context `{Codec}.
Variable cfg : Config.


Lemma udp_run_cons u x w ev sched :
  udp_run cfg u x ((w, ev) :: sched) =
    let '(r, x1, e1) := udp_step cfg w u ev x in
    ((udp_run cfg u x1 sched).1, e1 ++ escaped r ++ (udp_run cfg u x1 sched).2).
Proof.
  simpl. destruct (udp_step cfg w u ev x) as [[r x1] e1].
  by destruct (udp_run cfg u x1 sched).
Qed.

(** The ["message"] listener on a socket that receives: when [ws.send]
    throws, the listener is left with the exchange as it was; otherwise
    the frame goes to the channel the client holds, if it holds one and is
    not closed, and [close()] is called on the socket. *)
Lemma udp_step_message w u x d :
  socket x = Receiving ->
  udp_step cfg w u (DgramMessage d) x =
    if send_throws w then (Abrupt (ThrownError not_open), x, [])
    else
      (Normal tt,
       {| packetId := packetId x; socket := Closing; timeout := timeout x |},
       match sends_on w with
       | Some c => [WsSend c (UDPResponse (packetId x) (base64_encode d))]
       | None => []
       end ++ [DgramClose u]).
Proof.
  intros Hx. unfold udp_step, udp_enabled, send_throws, sends_on. rewrite Hx. simpl.
  unfold bind, get, socket_close, ws_send, emit, modify, throw, ret.
  destruct (ws_if_open (client w)) as [c|]; simpl; [|done].
  destruct (channels w !! c) as [ch|]; simpl; [|done].
  by destruct (bool_decide (readyState ch = CONNECTING)).
Qed.



End DatagramFacts.

(** ** The datagram bridge *)



Section ResponseCount.
Context `{Codec}.
Variable cfg : Config.


Lemma proxy_settle_spec {S} h ev (s : S) :
  exists pre, proxy_settle h ev s = (Normal (proxy_response ev), s, pre) /\
              filter is_send pre = [].
Proof. destruct ev; eexists; split; reflexivity. Qed.



End ResponseCount.

Section ResponseLife.
Context `{Codec}.
Variable cfg : Config.







End ResponseLife.

(** ** One response per request *)




Section Lifecycle.
Context `{Codec}.
Variable cfg : Config.

Lemma settles_other c ch ev :
  (forall c' cev, ev = OnChannel c' cev ->
     c' <> c \/ channel_enabled ch cev = false \/
     match cev with WsError _ | WsClosed => False | _ => True end) ->
  settles c ch ev = lifecycle ch.
Proof.
  intros Hev. unfold settles. destruct (lifecycle ch); try done.
  destruct ev as [| |c' cev| | | | |]; try done.
  destruct cev as [|raw|err| |]; try done.
  - destruct (Hev c' _ eq_refl) as [Hne|[Hen|[]]].
    + by rewrite bool_decide_eq_false_2.
    + rewrite Hen. by rewrite andb_false_r.
  - destruct (Hev c' _ eq_refl) as [Hne|[Hen|[]]].
    + by rewrite bool_decide_eq_false_2.
    + rewrite Hen. by rewrite andb_false_r.
Qed.

(** Every event leaves the promise of every channel as [settles] says. *)
Lemma dispatch_lifecycle ev w c ch :
  channels w !! c = Some ch ->
  exists ch', channels (dispatch cfg ev w).1.2 !! c = Some ch' /\
              lifecycle ch' = settles c ch ev.
Proof.
  intros Hc.
  assert (Hsame : forall ev', (forall c' cev, ev' <> OnChannel c' cev) ->
            exists ch', channels w !! c = Some ch' /\ lifecycle ch' = settles c ch ev').
  { intros ev' Hev. exists ch. split; [done|]. symmetry. apply settles_other.
    intros c' cev ->. by destruct (Hev c' cev). }
  assert (Hgrown : forall ev' x, (forall c' cev, ev' <> OnChannel c' cev) ->
            exists ch', (channels w ++ [x]) !! c = Some ch' /\
                        lifecycle ch' = settles c ch ev').
  { intros ev' x Hev. exists ch. split; [by apply lookup_app_l_Some|].
    symmetry. apply settles_other. intros c' cev ->. by destruct (Hev c' cev). }
  destruct ev.
  - js_world. js_cases; simpl in *; simplify_eq; simpl;
      first [by apply Hsame | by apply Hgrown].
  - unfold dispatch. rewrite close_spec. simpl.
    destruct (ws (client w)) as [c0|]; simpl; [|by apply Hsame].
    destruct (decide (c0 = c)) as [->|Hne].
    + rewrite list_lookup_alter_eq, Hc. simpl. eexists; split; [done|]. simpl.
      symmetry. by apply settles_other.
    + rewrite list_lookup_alter_ne by done. by apply Hsame.
  - pose proof (lookup_lt_Some _ _ _ Hc) as Hlt.
    destruct (decide (c0 = c)) as [->|Hne].
    + js_world. js_cases; simpl in *; simplify_eq; simpl.
      all: repeat first [ rewrite list_lookup_alter_eq
                        | rewrite list_lookup_insert_eq by done ].
      all: simpl; (eexists; split; [done|]); simpl.
      all: unfold settles; simpl.
      all: try (by destruct (lifecycle ch)).
      all: rewrite ?bool_decide_eq_true_2 by done.
      all: try match goal with
               | Hev : channel_enabled _ ?ev = false |- _ =>
                   destruct ev; simpl in Hev
               end.
      all: repeat match goal with
                  | Hx : _ = true |- _ => rewrite Hx
                  | Hx : _ = false |- _ => rewrite Hx
                  end.
      all: simpl; try (by destruct (lifecycle ch)).
    + js_world. js_cases; simpl in *; simplify_eq; simpl.
      all: repeat first [ rewrite list_lookup_alter_ne by done
                        | rewrite list_lookup_insert_ne by done ].
      all: try (eexists; split; [done|]; symmetry; apply settles_other;
                intros ? ? [= <- <-]; by left).
  - js_world. js_cases; simpl in *; simplify_eq; simpl;
      first [by apply Hsame | by apply Hgrown].
  - js_world. js_cases; simpl in *; simplify_eq; simpl;
      first [by apply Hsame | by apply Hgrown].
  - js_world. js_cases; simpl in *; simplify_eq; simpl;
      first [by apply Hsame | by apply Hgrown].
  - js_world. js_cases; simpl in *; simplify_eq; simpl;
      first [by apply Hsame | by apply Hgrown].
  - js_world. js_cases; simpl in *; simplify_eq; simpl;
      first [by apply Hsame | by apply Hgrown].
Qed.

(** The state in which an event of channel [c] leaves that channel. *)
Lemma dispatch_on_channel w c ch cev :
  channels w !! c = Some ch ->
  channel_enabled ch cev = true ->
  exists ch', channels (dispatch cfg (OnChannel c cev) w).1.2 !! c = Some ch' /\
              readyState ch' = readyState_at (readyState ch) cev /\
              innerClose ch' =
                innerClose ch || match cev with WsOpen => true | _ => false end.
Proof.
  intros Hc Hen. pose proof (lookup_lt_Some _ _ _ Hc) as Hlt.
  js_world. js_cases; simpl in *; simplify_eq; simpl.
  all: repeat first [ rewrite list_lookup_alter_eq
                    | rewrite list_lookup_insert_eq by done ].
  all: simpl; (eexists; split; [done|]); simpl.
  all: split; [done|].
  all: try (by rewrite orb_false_r).
  all: try (by rewrite orb_true_r).
  all: try (by match goal with Hi : innerClose _ = _ |- _ => rewrite Hi end).
  all: done.
Qed.

Lemma step_world w ev : (step cfg w ev).1 = (dispatch cfg ev w).1.2.
Proof. unfold step. by destruct (dispatch cfg ev w) as [[[u|t] w'] e]. Qed.
End Lifecycle.

(** ** connectOnce *)

(** C5, as the code has it.  The promise of [connectOnce] is settled by the
    first of two events of its channel: ["error"] rejects it at once, while
    the channel is not yet closed; ["close"] resolves it, provided that the
    channel had opened.  So the promise resolves only when the channel
    closes, and only if no error came first; once settled it does not
    change, and no other event touches it. *)
Theorem promise_follows_channel `{Codec} (cfg : Config) (w : World) (c : nat)
    (ch : Channel) (ev : Event) :
  channels w !! c = Some ch ->
  exists ch',
    channels (step cfg w ev).1 !! c = Some ch' /\
    lifecycle ch' = settles c ch ev /\
    (forall err, ev = OnChannel c (WsError err) ->
       channel_enabled ch (WsError err) = true -> lifecycle ch = Pending ->
       lifecycle ch' = Rejected (ThrownError err) /\ readyState ch' = CLOSING) /\
    (ev = OnChannel c WsClosed -> channel_enabled ch WsClosed = true ->
       readyState ch' = CLOSED /\
       (lifecycle ch = Pending ->
        lifecycle ch' = if innerClose ch then Resolved else Pending)) /\
    (lifecycle ch <> Resolved -> lifecycle ch' = Resolved ->
       ev = OnChannel c WsClosed /\ readyState ch' = CLOSED /\ innerClose ch = true) /\
    (lifecycle ch <> Pending -> lifecycle ch' = lifecycle ch).
Proof.
  intros Hc. rewrite step_world.
  destruct (dispatch_lifecycle cfg ev w c ch Hc) as (ch' & Hc' & Hl).
  exists ch'. split; [done|]. split; [done|].
  assert (Hstate : forall cev, ev = OnChannel c cev -> channel_enabled ch cev = true ->
            readyState ch' = readyState_at (readyState ch) cev).
  { intros cev -> Hen.
    destruct (dispatch_on_channel cfg w c ch cev Hc Hen) as (ch2 & Hc2 & Hrs & _).
    congruence. }
  split_and!.
  - intros err -> Hen Hp. split; [|by apply (Hstate _ eq_refl Hen)].
    rewrite Hl. unfold settles. rewrite Hp, Hen.
    by rewrite bool_decide_eq_true_2.
  - intros -> Hen. split; [by apply (Hstate _ eq_refl Hen)|].
    intros Hp. rewrite Hl. unfold settles. rewrite Hp, Hen.
    by rewrite bool_decide_eq_true_2.
  - intros Hnot Hres. rewrite Hl in Hres. unfold settles in Hres.
    destruct (lifecycle ch) eqn:Hp; try done.
    destruct ev as [| |c' cev| | | | |]; try done.
    destruct cev as [|raw|err| |]; try done.
    + by destruct (bool_decide (c' = c) && channel_enabled ch (WsError err)).
    + destruct (bool_decide (c' = c)) eqn:Hcc; [|done].
      apply bool_decide_eq_true in Hcc as ->.
      destruct (channel_enabled ch WsClosed) eqn:Hen; [|done].
      destruct (innerClose ch) eqn:Hi; [|done].
      split; [done|]. split; [|done]. by apply (Hstate _ eq_refl Hen).
  - intros Hnot. rewrite Hl. unfold settles. by destruct (lifecycle ch).
Qed.

Lemma promise_follows_channel_witness :
  exists ch',
    channels (step (constructor sample_options) world_open (OnChannel 0 WsClosed)).1 !! 0%nat
      = Some ch' /\
    lifecycle ch' = Resolved /\ readyState ch' = CLOSED.
Proof.
  destruct (promise_follows_channel (constructor sample_options) world_open 0
    {| readyState := OPEN; pingInterval := true; innerClose := true; lifecycle := Pending |}
    (OnChannel 0 WsClosed) eq_refl) as (ch' & Hc & Hl & _ & Hclose & _).
  exists ch'. split; [exact Hc|].
  destruct (Hclose eq_refl eq_refl) as [Hrs Hres]. split; [|exact Hrs].
  exact (Hres eq_refl).
Defined.

(** C5 as stated fails when the channel closes because of an error: the
    promise is rejected when ["error"] comes, while the channel is still
    closing, and it stays rejected when ["close"] follows; it never
    resolves.  The same holds for a channel that had opened. *)
Lemma promise_rejects_on_error :
  channels (run (constructor sample_options) initial
              [CallConnect; OnChannel 0 (WsError (mkError "Error" "ECONNREFUSED"))]).1 =
    [{| readyState := CLOSING; pingInterval := false; innerClose := false;
        lifecycle := Rejected (ThrownError (mkError "Error" "ECONNREFUSED")) |}] /\
  channels (run (constructor sample_options) initial
              [CallConnect; OnChannel 0 (WsError (mkError "Error" "ECONNREFUSED"));
               OnChannel 0 WsClosed]).1 =
    [{| readyState := CLOSED; pingInterval := false; innerClose := false;
        lifecycle := Rejected (ThrownError (mkError "Error" "ECONNREFUSED")) |}] /\
  channels (run (constructor sample_options) initial
              [CallConnect; OnChannel 0 WsOpen;
               OnChannel 0 (WsError (mkError "Error" "ECONNRESET"));
               OnChannel 0 WsClosed]).1 =
    [{| readyState := CLOSED; pingInterval := false; innerClose := true;
        lifecycle := Rejected (ThrownError (mkError "Error" "ECONNRESET")) |}].
Proof. repeat split. Qed.

Section Backoff.
Context `{Codec}.
Variable cfg : Config.

Lemma dispatch_backoff ev w :
  backoff (dispatch cfg ev w).1.2 = backoff_after w ev.
Proof.
  destruct ev.
  - js_world. js_cases; simpl in *; simplify_eq; unfold backoff_after; simpl;
      repeat case_match; simplify_eq; done.
  - unfold dispatch. rewrite close_spec. simpl. by destruct (ws (client w)).
  - js_world. js_cases; simpl in *; simplify_eq; unfold backoff_after; simpl;
      repeat case_match; simplify_eq; done.
  - js_world. js_cases; simpl in *; simplify_eq; unfold backoff_after; simpl;
      repeat case_match; simplify_eq; done.
  - js_world. js_cases; simpl in *; simplify_eq; unfold backoff_after; simpl;
      repeat case_match; simplify_eq; done.
  - js_world. js_cases; simpl in *; simplify_eq; unfold backoff_after; simpl;
      repeat case_match; simplify_eq; done.
  - js_world. js_cases; simpl in *; simplify_eq; unfold backoff_after; simpl;
      repeat case_match; simplify_eq; done.
  - js_world. js_cases; simpl in *; simplify_eq; unfold backoff_after; simpl;
      repeat case_match; simplify_eq; done.
Qed.

Lemma backoff_after_bounds w ev :
  1000 <= backoff w <= maxBackoff ->
  1000 <= backoff_after w ev <= maxBackoff /\
  (backoff w <= backoff_after w ev \/ backoff_after w ev = 1000).
Proof.
  unfold backoff_after, maxBackoff. intros Hb.
  repeat case_match; lia.
Qed.

Lemma run_backoff_bounds w evs :
  1000 <= backoff w <= maxBackoff ->
  1000 <= backoff (run cfg w evs).1 <= maxBackoff.
Proof.
  revert w. induction evs as [|ev evs IH]; intros w Hb; [done|].
  simpl. pose proof (step_world cfg w ev) as Hw.
  destruct (step cfg w ev) as [w1 e1]. simpl in Hw.
  specialize (IH w1). destruct (run cfg w1 evs) as [w2 e2]. simpl in *.
  apply IH. rewrite Hw, dispatch_backoff. by apply backoff_after_bounds.
Qed.

(** The [catch] block of [connect]. *)
Lemma connect_rejected w c ch t :
  phase w = AwaitingConnectOnce c ->
  channels w !! c = Some ch ->
  lifecycle ch = Rejected t ->
  step cfg w ConnectOnceSettled =
    (set_phase Sleeping w,
     Log warn ("Connection error: " +:+ errMessage (toError t) +:+ ". Retrying in "
               +:+ pretty (backoff w) +:+ "ms...")
       :: reported cfg (toError t) ++ [Sleep (backoff w)]).
Proof.
  intros Hp Hc Hl. unfold step, dispatch. unfold bind at 1, get at 1.
  rewrite Hp, Hc, Hl. unfold connect_resume.
  unfold bind at 1, get at 1. unfold bind at 1, emit at 1.
  unfold bind at 1. rewrite safeOnError_spec.
  unfold bind, emit, modify. simpl. done.
Qed.

Lemma doubling n :
  Nat.iter n (fun b => Z.min (b * 2) maxBackoff) 1000 =
    Z.min (1000 * 2 ^ Z.of_nat n) maxBackoff.
Proof.
  unfold maxBackoff. induction n as [|n IH]; [done|].
  rewrite Nat.iter_succ, IH, Nat2Z.inj_succ, Z.pow_succ_r by lia.
  assert (0 < 2 ^ Z.of_nat n) by (apply Z.pow_pos_nonneg; lia). lia.
Qed.
End Backoff.

(** ** connect *)

(** The schedule that [connect] keeps.  It starts with a delay of 1 s.
    After a rejected attempt it waits the delay and then doubles it, up to
    the 30 s ceiling, so that across failures in a row the delay never
    decreases and is 1 s times two to the number of failures, capped at
    30 s.  The delay goes back to 1 s when [connectOnce] resolves, that is,
    when a channel that had opened closes with no error before; no other
    event changes it.  From the call of [connect] on the delay stays
    between 1 s and 30 s. *)
Theorem backoff_schedule `{Codec} (cfg : Config) (w : World) (ev : Event)
    (evs : list Event) (n : nat) :
  backoff (step cfg w ev).1 = backoff_after w ev /\
  (1000 <= backoff w <= maxBackoff ->
   1000 <= backoff (step cfg w ev).1 <= maxBackoff /\
   (backoff w <= backoff (step cfg w ev).1 \/ backoff (step cfg w ev).1 = 1000)) /\
  (phase w = NotStarted -> backoff (step cfg w CallConnect).1 = 1000) /\
  (phase w = Sleeping ->
   backoff (step cfg w SleepOver).1 = Z.min (backoff w * 2) maxBackoff) /\
  (forall c ch t, phase w = AwaitingConnectOnce c -> channels w !! c = Some ch ->
     lifecycle ch = Rejected t ->
     backoff (step cfg w ConnectOnceSettled).1 = backoff w /\
     phase (step cfg w ConnectOnceSettled).1 = Sleeping /\
     Sleep (backoff w) ∈ (step cfg w ConnectOnceSettled).2) /\
  (forall c ch, phase w = AwaitingConnectOnce c -> channels w !! c = Some ch ->
     lifecycle ch = Resolved ->
     backoff (step cfg w ConnectOnceSettled).1 = 1000) /\
  1000 <= backoff (run cfg initial (CallConnect :: evs)).1 <= maxBackoff /\
  Nat.iter n (fun b => Z.min (b * 2) maxBackoff) 1000 =
    Z.min (1000 * 2 ^ Z.of_nat n) maxBackoff.
Proof.
  assert (Hstep : forall w ev, backoff (step cfg w ev).1 = backoff_after w ev).
  { intros w0 ev0. by rewrite step_world, dispatch_backoff. }
  split; [apply Hstep|].
  split; [intros Hb; rewrite Hstep; by apply backoff_after_bounds|].
  split; [intros Hp; rewrite Hstep; unfold backoff_after; by rewrite Hp|].
  split; [intros Hp; rewrite Hstep; unfold backoff_after; by rewrite Hp|].
  split.
  { intros c ch t Hp Hc Hl. rewrite (connect_rejected cfg w c ch t Hp Hc Hl).
    split; [done|]. split; [done|].
    apply elem_of_cons. right. apply elem_of_app. right. apply list_elem_of_here. }
  split.
  { intros c ch Hp Hc Hl. rewrite Hstep. unfold backoff_after. by rewrite Hp, Hc, Hl. }
  split; [|apply doubling].
  change (run cfg initial (CallConnect :: evs))
    with (let '(w1, e1) := step cfg initial CallConnect in
          let '(w2, e2) := run cfg w1 evs in (w2, e1 ++ e2)).
  pose proof (Hstep initial CallConnect) as H1.
  destruct (step cfg initial CallConnect) as [w1 e1]. simpl in H1.
  pose proof (run_backoff_bounds cfg w1 evs) as Hrun.
  destruct (run cfg w1 evs) as [w2 e2]. simpl in *. apply Hrun.
  rewrite H1. unfold maxBackoff. lia.
Qed.

(** C3.  The reset that the claim states, and that the comment at the
    assignment announces ("Reset backoff on successful connection"), is
    missed when the channel that opened ends with an error.  After a failed
    first attempt the second attempt opens its channel, and the delay is
    still the doubled 2 s; when that channel then fails, [connect] waits
    2 s, not 1 s, and doubles again to 4 s.  Only when the opened channel
    closes with no error before does the delay go back to 1 s. *)
Lemma backoff_not_reset_by_open :
  (run (constructor sample_options) initial fail_then_open).2 =
    [NewWebSocket 0 "wss://api.outray.dev";
     Log warn "Connection error: connection lost. Retrying in 1000ms...";
     Sleep 1000;
     NewWebSocket 1 "wss://api.outray.dev";
     WsSend 1 (OpenTunnelRequest "key" http 0);
     SetInterval 1 9000] /\
  backoff (run (constructor sample_options) initial fail_then_open).1 = 2000 /\
  (run (constructor sample_options) initial
     (fail_then_open ++ [OnChannel 1 (WsError lost); ConnectOnceSettled])).2 =
    (run (constructor sample_options) initial fail_then_open).2 ++
    [Log warn "Connection error: connection lost. Retrying in 2000ms..."; Sleep 2000] /\
  backoff (run (constructor sample_options) initial
             (fail_then_open ++
              [OnChannel 1 (WsError lost); ConnectOnceSettled; SleepOver])).1 = 4000 /\
  backoff (run (constructor sample_options) initial
             (fail_then_open ++ [OnChannel 1 WsClosed; ConnectOnceSettled])).1 = 1000.
Proof. repeat split. Qed.

(** * Further properties *)

(** ** The stream bridge *)

Section StreamBridge.
Context `{Codec}.
Variable cfg : Config.

Lemma handleMessage_tcp_data data w :
  handleMessage cfg (Parsed (Some MessageType.TCP_DATA) data) w =
    (Normal tt, w,
     match tcpConnections (client w) !! f_connectionId data with
     | Some k => [SocketWrite k (base64_decode (f_data data))]
     | None => []
     end).
Proof.
  unfold handleMessage, JSON_parse, msgType_of, handleTCPData.
  unfold bind, try_catch, ret, get, emit. simpl.
  by destruct (tcpConnections (client w) !! f_connectionId data).
Qed.

Lemma handleMessage_tcp_connection data w :
  handleMessage cfg (Parsed (Some MessageType.TCP_CONNECTION) data) w =
    (Normal tt,
     upd_client (fun cl =>
         set_tcpConnections
           (<[f_connectionId data := length (sockets w)]> (tcpConnections cl)) cl)
       (upd_sockets (fun l =>
          l ++ [{| connId := f_connectionId data; destroyed := false; ended := false |}]) w),
     [CreateConnection (length (sockets w)) (port cfg) "localhost"]).
Proof. reflexivity. Qed.
End StreamBridge.

(** X1.  A [tcp_data] frame whose connection id is not registered is a
    silent no-op: nothing is written, nothing is logged or reported, and the
    client is left as it was. *)
Theorem tcp_data_for_unknown_id_is_dropped `{Codec} (cfg : Config) (data : Fields)
    (w : World) :
  tcpConnections (client w) !! f_connectionId data = None ->
  handleMessage cfg (Parsed (Some MessageType.TCP_DATA) data) w = (Normal tt, w, []).
Proof. intros Hnone. by rewrite handleMessage_tcp_data, Hnone. Qed.

Lemma tcp_data_for_unknown_id_is_dropped_witness :
  handleMessage (constructor sample_options)
    (Parsed (Some MessageType.TCP_DATA) no_fields) initial = (Normal tt, initial, []).
Proof.
  apply (tcp_data_for_unknown_id_is_dropped (constructor sample_options) no_fields initial).
  reflexivity.
Defined.

(** X2.  After a [tcp_connection] frame for an id, a [tcp_data] frame for
    the same id is written, base64-decoded, to the local socket that the
    first frame opened towards [localhost] on the configured port, whether
    or not the id was registered before. *)
Theorem tcp_data_reaches_the_socket_just_opened `{Codec} (cfg : Config)
    (opening payload : Fields) (w : World) :
  f_connectionId payload = f_connectionId opening ->
  let k := length (sockets w) in
  let '(r1, w1, e1) :=
    handleMessage cfg (Parsed (Some MessageType.TCP_CONNECTION) opening) w in
  let '(r2, w2, e2) :=
    handleMessage cfg (Parsed (Some MessageType.TCP_DATA) payload) w1 in
  r1 = Normal tt /\ r2 = Normal tt /\
  e1 = [CreateConnection k (port cfg) "localhost"] /\
  e2 = [SocketWrite k (base64_decode (f_data payload))] /\
  w2 = w1 /\
  sockets w1 !! k =
    Some {| connId := f_connectionId opening; destroyed := false; ended := false |}.
Proof.
  intros Hid k. rewrite handleMessage_tcp_connection, handleMessage_tcp_data.
  simpl. rewrite Hid, lookup_insert_eq.
  repeat split. by rewrite lookup_app_r, Nat.sub_diag.
Qed.

Lemma tcp_data_reaches_the_socket_just_opened_witness :
  f_connectionId no_fields = f_connectionId no_fields /\
  let '(r1, w1, e1) :=
    handleMessage (constructor sample_options)
      (Parsed (Some MessageType.TCP_CONNECTION) no_fields) initial in
  let '(r2, w2, e2) :=
    handleMessage (constructor sample_options)
      (Parsed (Some MessageType.TCP_DATA) no_fields) w1 in
  r1 = Normal tt /\ r2 = Normal tt /\
  e1 = [CreateConnection 0 3000 "localhost"] /\
  e2 = [SocketWrite 0 []] /\
  w2 = w1 /\
  sockets w1 !! 0%nat = Some {| connId := ""; destroyed := false; ended := false |}.
Proof.
  split; [reflexivity|].
  exact (tcp_data_reaches_the_socket_just_opened (constructor sample_options)
           no_fields no_fields initial eq_refl).
Defined.

Section SocketCallbacks.
Context `{Codec}.
Variable cfg : Config.

Lemma step_socket_data w k s data :
  sockets w !! k = Some s -> tcp_enabled s (SocketData data) = true ->
  step cfg w (OnSocket k (SocketData data)) =
    (w, if send_throws w then [Uncaught (ThrownError not_open)]
        else match sends_on w with
             | Some c => [WsSend c (TCPData (connId s) (base64_encode data))]
             | None => []
             end).
Proof.
  intros Hs Hen. unfold step, dispatch, tcp_handler, send_throws, sends_on, ws_send.
  unfold bind, get, emit, ret, throw. simpl in *. rewrite Hs. simpl. rewrite Hen.
  destruct (ws_if_open (client w)) as [c|]; [|done].
  destruct (channels w !! c) as [ch|]; [|done].
  by destruct (bool_decide (readyState ch = CONNECTING)).
Qed.

Lemma step_socket_close w k s :
  sockets w !! k = Some s -> ended s = false ->
  step cfg w (OnSocket k SocketClose) =
    (upd_client (fun cl =>
         set_tcpConnections (delete (connId s) (tcpConnections cl)) cl)
       (upd_sockets (alter (fun s =>
          {| connId := connId s; destroyed := destroyed s; ended := true |}) k) w),
     []).
Proof.
  intros Hs Hen. unfold step, dispatch, tcp_handler, tcp_enabled.
  unfold bind, get, emit, ret, modify. simpl. rewrite Hs. simpl. by rewrite Hen.
Qed.

Lemma step_socket_error w k s err :
  sockets w !! k = Some s -> destroyed s = false -> ended s = false ->
  step cfg w (OnSocket k (SocketError err)) =
    (upd_client (fun cl =>
         set_tcpConnections (delete (connId s) (tcpConnections cl)) cl)
       (upd_sockets (alter (fun s =>
          {| connId := connId s; destroyed := true; ended := ended s |}) k) w),
     reported cfg err ++ [SocketDestroy k]).
Proof.
  intros Hs Hd He. unfold step, dispatch, tcp_handler, tcp_enabled, socket_destroy.
  unfold bind at 1. unfold get at 1. rewrite Hs. simpl. rewrite Hd, He. simpl.
  unfold bind at 1. rewrite safeOnError_spec.
  unfold bind, emit, modify. simpl. by rewrite ?app_nil_r.
Qed.
End SocketCallbacks.

(** X3.  Data read from a local stream socket is framed as [tcp_data]
    with the socket's connection id and the base64 text of the bytes, and
    handed to the channel the client holds.  When the client holds no
    channel or is closed the data is dropped, not kept.  When the channel
    it holds is still connecting, [ws.send] throws: nothing is sent, the
    data is lost, and the exception leaves the ["data"] listener uncaught.
    The client's state does not change in any of the three cases. *)
Theorem tcp_local_data_is_sent_dropped_or_throws `{Codec} (cfg : Config) (w : World)
    (k : nat) (s : TcpSocket) (data : Buffer) :
  sockets w !! k = Some s ->
  tcp_enabled s (SocketData data) = true ->
  step cfg w (OnSocket k (SocketData data)) =
    (w, match ws (client w) with
        | Some c =>
            if closed (client w) then []
            else
              match readyState <$> channels w !! c with
              | Some CONNECTING => [Uncaught (ThrownError not_open)]
              | _ => [WsSend c (TCPData (connId s) (base64_encode data))]
              end
        | None => []
        end).
Proof.
  intros Hs Hen. rewrite (step_socket_data cfg w k s data Hs Hen).
  unfold send_throws, sends_on, ws_if_open.
  destruct (ws (client w)) as [c|]; [|done].
  destruct (closed (client w)); [done|].
  destruct (channels w !! c) as [ch|]; [|done]. simpl.
  by destruct (readyState ch).
Qed.

Lemma tcp_local_data_is_sent_dropped_or_throws_witness :
  let s := {| connId := "c1"; destroyed := false; ended := false |} in
  (sockets world_with_stream !! 0%nat = Some s /\
   step (constructor sample_options) world_with_stream (OnSocket 0 (SocketData [])) =
     (world_with_stream, [WsSend 0 (TCPData "c1" "")])) /\
  (sockets world_reconnecting !! 0%nat = Some s /\
   ws (client world_reconnecting) = Some 1%nat /\
   step (constructor sample_options) world_reconnecting (OnSocket 0 (SocketData [])) =
     (world_reconnecting, [Uncaught (ThrownError not_open)])).
Proof.
  split.
  - split; [reflexivity|].
    exact (tcp_local_data_is_sent_dropped_or_throws (constructor sample_options)
             world_with_stream 0 {| connId := "c1"; destroyed := false; ended := false |}
             [] eq_refl eq_refl).
  - split; [reflexivity|]. split; [reflexivity|].
    exact (tcp_local_data_is_sent_dropped_or_throws (constructor sample_options)
             world_reconnecting 0 {| connId := "c1"; destroyed := false; ended := false |}
             [] eq_refl eq_refl).
Defined.

(** X4.  When a local stream socket closes, its connection id is removed
    from the registry and the socket is marked ended; no frame tells the
    relay, and a later [tcp_data] frame for that id is dropped. *)
Theorem tcp_local_close_unregisters_silently `{Codec} (cfg : Config) (w : World)
    (k : nat) (s : TcpSocket) (payload : Fields) :
  sockets w !! k = Some s ->
  ended s = false ->
  f_connectionId payload = connId s ->
  let '(w1, e1) := step cfg w (OnSocket k SocketClose) in
  e1 = [] /\
  tcpConnections (client w1) = delete (connId s) (tcpConnections (client w)) /\
  sockets w1 !! k =
    Some {| connId := connId s; destroyed := destroyed s; ended := true |} /\
  handleMessage cfg (Parsed (Some MessageType.TCP_DATA) payload) w1 = (Normal tt, w1, []).
Proof.
  intros Hs Hen Hid. rewrite (step_socket_close cfg w k s Hs Hen).
  split; [done|]. split; [done|]. split.
  - simpl. rewrite list_lookup_alter_eq, Hs. done.
  - rewrite handleMessage_tcp_data. simpl. by rewrite Hid, lookup_delete_eq.
Qed.

Lemma tcp_local_close_unregisters_silently_witness :
  let s := {| connId := "c1"; destroyed := false; ended := false |} in
  let payload := {| f_url := ""; f_connectionId := "c1"; f_data := "hello"; f_packetId := "";
                    f_requestId := ""; f_method := ""; f_path := ""; f_headers := None;
                    f_body := None; f_message := "" |} in
  sockets world_with_stream !! 0%nat = Some s /\
  let '(w1, e1) :=
    step (constructor sample_options) world_with_stream (OnSocket 0 SocketClose) in
  e1 = [] /\
  tcpConnections (client w1) = delete "c1" (tcpConnections (client world_with_stream)) /\
  sockets w1 !! 0%nat = Some {| connId := "c1"; destroyed := false; ended := true |} /\
  handleMessage (constructor sample_options)
    (Parsed (Some MessageType.TCP_DATA) payload) w1 = (Normal tt, w1, []).
Proof.
  split; [reflexivity|].
  exact (tcp_local_close_unregisters_silently (constructor sample_options)
           world_with_stream 0 {| connId := "c1"; destroyed := false; ended := false |}
           {| f_url := ""; f_connectionId := "c1"; f_data := "hello"; f_packetId := "";
              f_requestId := ""; f_method := ""; f_path := ""; f_headers := None;
              f_body := None; f_message := "" |}
           eq_refl eq_refl eq_refl).
Defined.

(** X5.  An error of a local stream socket is handed to [onError] (caught
    if that throws), the socket is destroyed, and its connection id is
    removed from the registry; no frame is sent. *)
Theorem tcp_local_error_destroys_and_unregisters `{Codec} (cfg : Config) (w : World)
    (k : nat) (s : TcpSocket) (err : JsError) :
  sockets w !! k = Some s ->
  destroyed s = false -> ended s = false ->
  let '(w1, e1) := step cfg w (OnSocket k (SocketError err)) in
  e1 = reported cfg err ++ [SocketDestroy k] /\
  filter is_send e1 = [] /\
  tcpConnections (client w1) !! connId s = None /\
  sockets w1 !! k =
    Some {| connId := connId s; destroyed := true; ended := false |}.
Proof.
  intros Hs Hd He. rewrite (step_socket_error cfg w k s err Hs Hd He).
  split; [done|]. split; [|split].
  - rewrite filter_app, reported_no_send. done.
  - simpl. apply lookup_delete_eq.
  - simpl. rewrite list_lookup_alter_eq, Hs. simpl. by rewrite He.
Qed.

Lemma tcp_local_error_destroys_and_unregisters_witness :
  let s := {| connId := "c1"; destroyed := false; ended := false |} in
  let err := mkError "Error" "read ECONNRESET" in
  sockets world_with_stream !! 0%nat = Some s /\
  let '(w1, e1) :=
    step cfg_handler_throws world_with_stream (OnSocket 0 (SocketError err)) in
  e1 = [CallOnError err; SocketDestroy 0] /\
  filter is_send e1 = [] /\
  tcpConnections (client w1) !! ("c1" : string) = None /\
  sockets w1 !! 0%nat = Some {| connId := "c1"; destroyed := true; ended := false |}.
Proof.
  split; [reflexivity|].
  exact (tcp_local_error_destroys_and_unregisters cfg_handler_throws
           world_with_stream 0 {| connId := "c1"; destroyed := false; ended := false |}
           (mkError "Error" "read ECONNRESET") eq_refl eq_refl eq_refl).
Defined.

Section RegistryInvariant.
Context `{Codec}.
Variable cfg : Config.

Lemma registry_sound_same w w' :
  sockets w' = sockets w ->
  tcpConnections (client w') = tcpConnections (client w) ->
  registry_sound w -> registry_sound w'.
Proof. unfold registry_sound. intros -> ->. done. Qed.

Lemma registry_sound_more w w' x :
  sockets w' = sockets w ++ x ->
  tcpConnections (client w') = tcpConnections (client w) ->
  registry_sound w -> registry_sound w'.
Proof.
  unfold registry_sound. intros -> -> Hw id k Hk.
  destruct (Hw id k Hk) as (s & Hs & ?). exists s. split; [|done].
  by apply lookup_app_l_Some.
Qed.

Lemma registry_sound_open w id :
  registry_sound w ->
  registry_sound
    (upd_client (fun cl =>
         set_tcpConnections (<[id := length (sockets w)]> (tcpConnections cl)) cl)
       (upd_sockets (fun l =>
          l ++ [{| connId := id; destroyed := false; ended := false |}]) w)).
Proof.
  intros Hw id' k. simpl. destruct (decide (id = id')) as [<-|Hne].
  - rewrite lookup_insert_eq. intros [= <-].
    exists {| connId := id; destroyed := false; ended := false |}.
    split; [|done]. by rewrite lookup_app_r, Nat.sub_diag.
  - rewrite lookup_insert_ne by done. intros Hk.
    destruct (Hw id' k Hk) as (s & Hs & ?). exists s. split; [|done].
    by apply lookup_app_l_Some.
Qed.

Lemma registry_sound_gone w k s (f : TcpSocket -> TcpSocket) :
  sockets w !! k = Some s ->
  registry_sound w ->
  registry_sound
    (upd_client (fun cl =>
         set_tcpConnections (delete (connId s) (tcpConnections cl)) cl)
       (upd_sockets (alter f k) w)).
Proof.
  intros Hs Hw id k'. simpl. destruct (decide (connId s = id)) as [<-|Hne].
  - by rewrite lookup_delete_eq.
  - rewrite lookup_delete_ne by done. intros Hk.
    destruct (Hw id k' Hk) as (s' & Hs' & Hid & ?). exists s'. split; [|done].
    rewrite list_lookup_alter_ne; [done|]. intros ->. congruence.
Qed.

Lemma registry_sound_step w ev :
  registry_sound w -> registry_sound (step cfg w ev).1.
Proof.
  intros Hw. destruct ev as [| |c cev| | |k sev|u uev|h rev].
  - unfold step. js_world. js_cases; simpl in *; simplify_eq/=;
      by eapply registry_sound_same.
  - unfold step, dispatch. rewrite close_spec. simpl.
    intros id k. destruct (ws (client w)); simpl; by rewrite lookup_empty.
  - unfold step. js_world. js_cases; simpl in *; simplify_eq/=;
      try (by eapply registry_sound_same).
    match goal with
    | |- registry_sound (upd_client _ (upd_sockets _ ?w0)) =>
        apply (registry_sound_open w0)
    end.
    by eapply registry_sound_same.
  - unfold step. js_world. js_cases; simpl in *; simplify_eq/=;
      by eapply registry_sound_same.
  - unfold step. js_world. js_cases; simpl in *; simplify_eq/=;
      by eapply registry_sound_same.
  - unfold step. js_world. js_cases; simpl in *; simplify_eq/=;
      try (by eapply registry_sound_same);
      by eapply registry_sound_gone.
  - unfold step. js_world. js_cases; simpl in *; simplify_eq/=;
      by eapply registry_sound_same.
  - unfold step. js_world. js_cases; simpl in *; simplify_eq/=;
      by eapply registry_sound_same.
Qed.

Lemma registry_sound_run w evs :
  registry_sound w -> registry_sound (run cfg w evs).1.
Proof.
  revert w. induction evs as [|ev evs IH]; intros w Hw; [done|].
  simpl. pose proof (registry_sound_step w ev Hw) as Hstep.
  destruct (step cfg w ev) as [w1 e1]. specialize (IH w1 Hstep).
  by destruct (run cfg w1 evs) as [w2 e2].
Qed.

Lemma registry_sound_initial : registry_sound initial.
Proof. intros id k. simpl. by rewrite lookup_empty. Qed.
End RegistryInvariant.

(** X6.  In every world that a client reaches from its start, whatever
    events come in whatever order, each connection id in the registry leads
    to a local socket that was opened for that id and that has neither been
    destroyed nor reported its close. *)
Theorem registry_holds_only_live_sockets `{Codec} (cfg : Config) (evs : list Event) :
  registry_sound (run cfg initial evs).1.
Proof. apply registry_sound_run, registry_sound_initial. Qed.

(** ** Where effects come from *)

Section ActivationCauses.
Context `{Codec}.
Variable cfg : Config.

Lemma reported_cause err : Forall (activation_cause cfg) (reported cfg err).
Proof.
  unfold reported. destruct (onError cfg) as [g|]; [|done].
  destruct (g err); repeat constructor.
Qed.

Lemma try_send_cause {S} cl req resp (s : S) :
  exists at_ e,
    try_catch (handleRequest_send cl req resp) (handleRequest_catch cfg) s =
      (Normal at_, s, e) /\
    Forall (activation_cause cfg) e.
Proof.
  destruct (ws_if_open cl) as [c|] eqn:Hc.
  - rewrite (handleRequest_send_open cfg cl c req resp s Hc).
    eexists _, _. split; [done|]. repeat constructor.
  - rewrite (handleRequest_send_closed cfg cl req resp s Hc).
    eexists _, _. split; [done|]. constructor; [done|]. apply reported_cause.
Qed.

Lemma handleRequest_cause {S} cl h req (s : S) :
  exists at_ e,
    handleRequest cfg cl h req s = (Normal at_, s, e) /\
    Forall (activation_cause cfg) e.
Proof.
  unfold handleRequest. destruct (onRequest cfg) as [f|].
  - unfold try_catch at 1, bind at 1. simpl.
    destruct (f req); simpl; try (eexists _, _; split; [done|]; repeat constructor).
    unfold throw. rewrite handleRequest_catch_spec. eexists _, _. split; [done|].
    constructor; [done|]. constructor; [done|]. apply reported_cause.
  - destruct ((0 <? port cfg) && bool_decide (protocol cfg = http)).
    + unfold try_catch, bind at 1. rewrite proxyHTTP_spec. simpl.
      eexists _, _. split; [done|]. destruct (body req); repeat constructor.
    + apply try_send_cause.
Qed.

Lemma handleRequest_resume_cause {S} cl h at_ ev (s : S) :
  exists at1 e,
    handleRequest_resume cfg cl h at_ ev s = (Normal at1, s, e) /\
    Forall (activation_cause cfg) e.
Proof.
  assert (Hcatch : forall t,
    exists at1 e, try_catch (throw t) (handleRequest_catch cfg) s = (Normal at1, s, e) /\
    Forall (activation_cause cfg) e).
  { intros t. unfold try_catch, throw. rewrite handleRequest_catch_spec.
    eexists _, _. split; [done|]. constructor; [done|]. apply reported_cause. }
  destruct at_ as [req [t|resp|t|]|req| |], ev as [|pev|[err|]]; simpl;
    try (eexists _, _; split; [reflexivity|]; constructor);
    try apply Hcatch; try apply try_send_cause.
  destruct pev as [status hs chunks|err|]; unfold proxy_settle.
  - rewrite try_catch_bind_ret. apply try_send_cause.
  - rewrite try_catch_bind_ret. apply try_send_cause.
  - rewrite try_catch_emit_ret.
    destruct (try_send_cause cl req
      {| statusCode := 504; resp_headers := None;
         resp_body := Some (BodyString "Proxy Timeout") |} s) as (at1 & e & -> & He).
    eexists _, _. split; [done|]. by constructor.
Qed.

Lemma activation_step_cause w ev e :
  activation_cause cfg e -> step_cause cfg w ev e.
Proof. destruct e as [| | | | |c []| | | | | | | | | | | | | | | | | |]; simpl; done. Qed.

Lemma activation_step_causes w ev es :
  Forall (activation_cause cfg) es -> Forall (step_cause cfg w ev) es.
Proof.
  intros Hes. eapply Forall_impl; [done|]. intros e. apply activation_step_cause.
Qed.

Lemma reported_step_cause w ev err : Forall (step_cause cfg w ev) (reported cfg err).
Proof. apply activation_step_causes, reported_cause. Qed.
End ActivationCauses.

Ltac cause_cases :=
  repeat first
    [ progress simplify_eq
    | match goal with
      | H : context [safeOnError _ _ _] |- _ => rewrite safeOnError_spec in H
      | |- context [safeOnError ?cfg ?err ?s] => rewrite (safeOnError_spec cfg err s)
      | H : context [connect_loop _ _] |- _ => rewrite connect_loop_spec in H
      | |- context [connect_loop ?cfg ?w] => rewrite (connect_loop_spec cfg w)
      | H : context [handleRequest ?cfg ?cl ?h ?req ?s] |- _ =>
          let Heq := fresh in
          destruct (handleRequest_cause cfg cl h req s) as (? & ? & Heq & ?);
          rewrite Heq in H; clear Heq
      | H : context [handleRequest_resume ?cfg ?cl ?h ?a ?ev ?s] |- _ =>
          let Heq := fresh in
          destruct (handleRequest_resume_cause cfg cl h a ev s) as (? & ? & Heq & ?);
          rewrite Heq in H; clear Heq
      | u : unit |- _ => destruct u
      end
    | case_match ].

Section StepCauses.
Context `{Codec}.
Variable cfg : Config.

Ltac causes_ok :=
  repeat first
    [ apply Forall_nil_2 | apply Forall_cons_2 | apply Forall_app_2
    | apply reported_step_cause | by apply activation_step_causes ];
  simpl; unfold send_throws, sends_on;
  repeat match goal with
         | Hx : ws_if_open _ = _ |- _ => rewrite Hx
         | Hx : channels _ !! _ = _ |- _ => rewrite Hx
         | Hx : bool_decide (readyState _ = CONNECTING) = _ |- _ => rewrite Hx
         end;
  simpl in *; simplify_eq/=;
  repeat match goal with
         | H : bool_decide _ = true |- _ => apply bool_decide_eq_true in H
         end;
  eauto 10.

(** Each effect that a callback leaves, and the exception that leaves it
    if one does, has the cause that [step_cause] names. *)
Lemma dispatch_causes ev w :
  exists r w' e,
    dispatch cfg ev w = (r, w', e) /\ Forall (step_cause cfg w ev) (e ++ escaped r).
Proof.
  destruct ev.
  - js_world. cause_cases. all: eexists _, _, _; (split; [done|]). all: causes_ok.
  - unfold dispatch. rewrite close_spec. eexists _, _, _; (split; [done|]).
    simpl. rewrite app_nil_r. apply Forall_app_2.
    + apply Forall_fmap, Forall_true. done.
    + destruct (ws (client w)) eqn:Hws; repeat constructor. done.
  - js_world. cause_cases. all: eexists _, _, _; (split; [done|]). all: causes_ok.
  - js_world. cause_cases. all: eexists _, _, _; (split; [done|]). all: causes_ok.
  - js_world. cause_cases. all: eexists _, _, _; (split; [done|]). all: causes_ok.
  - js_world. cause_cases. all: eexists _, _, _; (split; [done|]). all: causes_ok.
  - js_world. cause_cases. all: eexists _, _, _; (split; [done|]). all: causes_ok.
  - js_world. cause_cases. all: eexists _, _, _; (split; [done|]). all: causes_ok.
Qed.

Lemma step_causes w ev : Forall (step_cause cfg w ev) (step cfg w ev).2.
Proof.
  unfold step. destruct (dispatch_causes ev w) as (r & w' & e & -> & He).
  destruct r; simpl in *; [by rewrite app_nil_r in He|done].
Qed.
End StepCauses.

Section Runs.
Context `{Codec}.
Variable cfg : Config.

(** An invariant of the steps holds along a run, and so does a property
    of the effects that the invariant gives at every step. *)
Lemma run_invariant (I : World -> Prop) (P : Effect -> Prop) :
  (forall w ev, I w -> I (step cfg w ev).1) ->
  (forall w ev, I w -> Forall P (step cfg w ev).2) ->
  forall evs w, I w -> I (run cfg w evs).1 /\ Forall P (run cfg w evs).2.
Proof.
  intros Hstep Heff. induction evs as [|ev evs IH]; intros w Hw; [by split|].
  simpl. pose proof (Hstep w ev Hw) as Hw1. pose proof (Heff w ev Hw) as He1.
  destruct (step cfg w ev) as [w1 e1]. simpl in *.
  destruct (IH w1 Hw1) as [Hw2 He2].
  destruct (run cfg w1 evs) as [w2 e2]. simpl in *.
  split; [done|]. by apply Forall_app_2.
Qed.

Lemma filter_nil_Forall {A} (P : A -> bool) (l : list A) :
  Forall (fun x => P x = false) l -> filter P l = [].
Proof.
  induction 1 as [|x l Hx Hl IH]; [done|].
  rewrite filter_cons. destruct (decide (P x)) as [Hp|]; [|done].
  rewrite Hx in Hp. done.
Qed.
End Runs.

(** ** User callbacks *)

(** C10.  An exception thrown by the user's [onOpen] or [onError] callback
    is caught by [safeCallback] and logged: the dispatch of [tunnel_opened]
    and the error-reporting path both complete normally and leave the client
    as it was, whatever the callback throws (an [Error], or a value with a
    string form).  No exception of a callback ever leaves the client: in
    every step, and so in every sequence of events, the one exception that
    escapes is the one that [ws.send] throws on a channel that is still
    connecting, and it escapes from the ["data"] listener of a stream
    socket or the ["message"] listener of a datagram socket, neither of
    which calls a user callback. *)
Theorem callback_exceptions_are_contained `{Codec} (cfg : Config) f g (t1 t2 : Thrown)
    (data : Fields) (err : JsError) (w : World) (evs : list Event) :
  onOpen cfg = Some f -> f (f_url data) = Throws t1 ->
  onError cfg = Some g -> g err = Throws t2 ->
  handleMessage cfg (Parsed (Some MessageType.TUNNEL_OPENED) data) w =
    (Normal tt, w,
     [CallOnOpen (f_url data); Log error ("Callback error: " +:+ String_of t1)]) /\
  safeOnError cfg err w =
    (Normal tt, w,
     [CallOnError err; Log error ("Callback error: " +:+ String_of t2)]) /\
  (forall ev t, Uncaught t ∈ (step cfg w ev).2 ->
     t = ThrownError not_open /\ send_throws w = true /\
     ((exists k d, ev = OnSocket k (SocketData d)) \/
      (exists u d, ev = OnDgram u (DgramMessage d)))) /\
  Forall (fun e => forall t, e = Uncaught t -> t = ThrownError not_open)
    (run cfg w evs).2.
Proof.
  intros Hf Ht1 Hg Ht2. split_and!.
  - js_world. rewrite Hf, Ht1. done.
  - rewrite safeOnError_spec. unfold reported. by rewrite Hg, Ht2.
  - intros ev t Hin. pose proof (step_causes cfg w ev) as Hall.
    rewrite Forall_forall in Hall. exact (Hall _ Hin).
  - apply (run_invariant cfg (fun _ => True)
             (fun e => forall t, e = Uncaught t -> t = ThrownError not_open));
      [done| |done].
    intros w0 ev _. eapply Forall_impl; [apply (step_causes cfg w0 ev)|].
    intros e Hc t ->. by destruct Hc as [-> _].
Qed.

Lemma callback_exceptions_are_contained_witness :
  handleMessage cfg_throwing_callbacks
    (Parsed (Some MessageType.TUNNEL_OPENED) (tunnel_opened_frame "https://x.outray.dev"))
    world_open =
    (Normal tt, world_open,
     [CallOnOpen "https://x.outray.dev"; Log error "Callback error: Error: open failed"]) /\
  safeOnError cfg_throwing_callbacks (mkError "Error" "lost") world_open =
    (Normal tt, world_open,
     [CallOnError (mkError "Error" "lost");
      Log error "Callback error: Error: error failed"]).
Proof.
  destruct (callback_exceptions_are_contained cfg_throwing_callbacks
    (throwing_callback "open failed") (throwing_callback "error failed")
    (ThrownError (mkError "Error" "open failed"))
    (ThrownError (mkError "Error" "error failed"))
    (tunnel_opened_frame "https://x.outray.dev") (mkError "Error" "lost") world_open []
    eq_refl eq_refl eq_refl eq_refl) as (Hopen & Herror & _).
  split; [exact Hopen | exact Herror].
Defined.

(** X7.  Along every run of a client from its start, [handleTCPData] never
    writes to a local socket that is destroyed or has closed: whatever event
    comes next, it leaves no such write in the trace. *)
Theorem tcp_data_is_never_written_to_a_dead_socket `{Codec} (cfg : Config)
    (evs : list Event) (ev : Event) :
  let w := (run cfg initial evs).1 in
  filter (writes_to_dead_socket w) (step cfg w ev).2 = [].
Proof.
  intros w. apply filter_nil_Forall.
  pose proof (registry_sound_run cfg initial evs (registry_sound_initial)) as Hsound.
  fold w in Hsound.
  eapply Forall_impl; [apply (step_causes cfg w ev)|].
  intros [] Hc; simpl in *; try done.
  destruct Hc as (id & Hid). destruct (Hsound id k Hid) as (s & Hs & _ & Hd & He).
  unfold socket_live. by rewrite Hs, Hd, He.
Qed.

(** X8.  Whatever events come, the client reaches out only where its
    configuration says: every channel it makes goes to the configured server
    URL, and every local stream connection, datagram and HTTP call goes to
    [localhost] on the configured port. *)
Theorem client_reaches_only_configured_endpoints `{Codec} (cfg : Config)
    (w : World) (evs : list Event) :
  Forall (stays_local cfg) (run cfg w evs).2.
Proof.
  apply (run_invariant cfg (fun _ => True) (stays_local cfg)); [done| |done].
  intros w0 ev _. eapply Forall_impl; [apply (step_causes cfg w0 ev)|].
  intros [] Hc; simpl in *; try done; tauto.
Qed.

(** ** One channel, followed alone *)

Section ChannelView.
Context `{Codec}.
Variable cfg : Config.

Lemma channel_eta (ch : Channel) :
  {| readyState := readyState ch; pingInterval := pingInterval ch;
     innerClose := innerClose ch; lifecycle := lifecycle ch |} = ch.
Proof. by destruct ch. Qed.

Ltac channel_lookup :=
  simpl in *; simplify_eq/=;
  rewrite ?list_lookup_alter, ?list_lookup_insert, ?lookup_app;
  repeat (case_decide; simplify_eq/=);
  repeat match goal with
         | H : ?l !! ?c = Some _ |- context [?l !! ?c] => rewrite H
         | H : bool_decide _ = true |- _ => apply bool_decide_eq_true in H
         | H : bool_decide _ = false |- _ => apply bool_decide_eq_false in H
         end;
  simpl; rewrite ?channel_eta, ?bool_decide_eq_true_2, ?bool_decide_eq_false_2 by done;
  simpl; try done;
  try (match goal with
       | H : ?l !! ?c = Some ?ch |- _ =>
           pose proof (lookup_lt_Some _ _ _ H); destruct ch; simpl in *
       end;
       simplify_eq/=; first [done | exfalso; naive_solver lia]).

(** A channel that exists is moved by one event as [channel_after] says. *)
Lemma step_channel_view w ev c ch :
  channels w !! c = Some ch ->
  channels (step cfg w ev).1 !! c = Some (channel_after w ev c ch).
Proof.
  intros Hch. destruct ev as [| |c' cev| | |k sev|u uev|h rev].
  - unfold step. js_world. cause_cases; channel_lookup.
  - unfold step, dispatch. rewrite close_spec. simpl.
    destruct (ws (client w)) as [c'|] eqn:Hws; channel_lookup.
  - unfold step. js_world. cause_cases; channel_lookup.
  - unfold step. js_world. cause_cases; channel_lookup.
  - unfold step. js_world. cause_cases; channel_lookup.
  - unfold step. js_world. cause_cases; channel_lookup.
  - unfold step. js_world. cause_cases; channel_lookup.
  - unfold step. js_world. cause_cases; channel_lookup.
Qed.
End ChannelView.

Section ChannelInvariants.
Context `{Codec}.
Variable cfg : Config.

(** A channel that appears was just made by [connectOnce]. *)
Lemma step_channel_new w ev c ch' :
  channels w !! c = None ->
  channels (step cfg w ev).1 !! c = Some ch' ->
  ch' = fresh_channel.
Proof.
  intros Hnone. pose proof (lookup_ge_None_1 _ _ Hnone) as Hge.
  destruct ev as [| |c' cev| | |k sev|u uev|h rev].
  - unfold step. js_world. cause_cases; simpl in *; simplify_eq/=;
      rewrite ?lookup_app, ?Hnone; try done.
    all: destruct (c - length (channels w))%nat as [|[|n]]; simpl; naive_solver.
  - unfold step, dispatch. rewrite close_spec. simpl.
    destruct (ws (client w)) as [c'|]; simpl; [|by rewrite Hnone].
    destruct (decide (c' = c)) as [->|Hne].
    + by rewrite list_lookup_alter_eq, Hnone.
    + by rewrite list_lookup_alter_ne, Hnone.
  - unfold step. js_world. cause_cases; simpl in *; simplify_eq/=;
      try (by rewrite Hnone);
      match goal with
      | Hsome : channels w !! ?c' = Some _ |- _ =>
          assert (c' <> c) by (intros ->; congruence)
      end;
      rewrite ?list_lookup_alter_ne, ?list_lookup_insert_ne by done;
      by rewrite Hnone.
  - unfold step. js_world. cause_cases; simpl in *; simplify_eq/=;
      rewrite ?lookup_app, ?Hnone; try done.
    all: destruct (c - length (channels w))%nat as [|[|n]]; simpl; naive_solver.
  - unfold step. js_world. cause_cases; simpl in *; simplify_eq/=;
      rewrite ?lookup_app, ?Hnone; try done.
    all: destruct (c - length (channels w))%nat as [|[|n]]; simpl; naive_solver.
  - unfold step. js_world. cause_cases; simpl in *; simplify_eq/=;
      rewrite ?Hnone; done.
  - unfold step. js_world. cause_cases; simpl in *; simplify_eq/=;
      rewrite ?Hnone; done.
  - unfold step. js_world. cause_cases; simpl in *; simplify_eq/=;
      rewrite ?Hnone; done.
Qed.

Lemma intervals_sound_step w ev :
  intervals_sound w -> intervals_sound (step cfg w ev).1.
Proof.
  unfold intervals_sound. rewrite !Forall_lookup. intros Hw c ch' Hc'.
  destruct (channels w !! c) as [ch|] eqn:Hc.
  - rewrite (step_channel_view cfg w ev c ch Hc) in Hc'. simplify_eq.
    specialize (Hw c ch Hc).
    destruct ev as [| |c' cev| | |k sev|u uev|h rev]; simpl; try done.
    + case_bool_decide; [|done]. intros Hp. destruct (Hw Hp) as (Hi & [Hr|Hr]).
      all: split; [done|]; rewrite Hr; simpl; tauto.
    + destruct (bool_decide (c' = c) && channel_enabled ch cev); [|done].
      destruct cev; simpl; try done.
      * tauto.
      * intros Hp. destruct (Hw Hp). tauto.
      * destruct (innerClose ch) eqn:Hi; [done|].
        intros Hp. destruct (Hw Hp). congruence.
  - rewrite (step_channel_new w ev c ch' Hc Hc'). done.
Qed.

Lemma intervals_sound_initial : intervals_sound initial.
Proof. constructor. Qed.
End ChannelInvariants.

(** X9.  Along every run of a client from its start, a channel has its ping
    interval set only after its ["open"] event and before its ["close"]
    event: the interval set on opening is always cleared on closing, and
    none is ever set on a channel that did not open. *)
Theorem ping_interval_lives_between_open_and_close `{Codec} (cfg : Config)
    (evs : list Event) (c : nat) (ch : Channel) :
  channels (run cfg initial evs).1 !! c = Some ch ->
  pingInterval ch = true ->
  innerClose ch = true /\ (readyState ch = OPEN \/ readyState ch = CLOSING).
Proof.
  intros Hc.
  destruct (run_invariant cfg intervals_sound (fun _ => True)
              (intervals_sound_step cfg) ltac:(intros; by apply Forall_true)
              evs initial intervals_sound_initial) as [Hinv _].
  unfold intervals_sound in Hinv. rewrite Forall_lookup in Hinv.
  exact (Hinv c ch Hc).
Qed.

Lemma ping_interval_lives_between_open_and_close_witness :
  let ch := {| readyState := OPEN; pingInterval := true; innerClose := true;
               lifecycle := Pending |} in
  channels (run (constructor sample_options) initial
              [CallConnect; OnChannel 0 WsOpen]).1 !! 0%nat = Some ch /\
  innerClose ch = true /\ (readyState ch = OPEN \/ readyState ch = CLOSING).
Proof.
  split; [reflexivity|].
  exact (ping_interval_lives_between_open_and_close (constructor sample_options)
           [CallConnect; OnChannel 0 WsOpen] 0
           {| readyState := OPEN; pingInterval := true; innerClose := true;
              lifecycle := Pending |} eq_refl eq_refl).
Defined.

(** ** The reconnect loop *)

Section BackoffInvariant.
Context `{Codec}.
Variable cfg : Config.

Ltac backoff_leaf Hw :=
  try done; intros _; first [lia | specialize (Hw ltac:(congruence)); lia].

Lemma backoff_sound_step w ev :
  backoff_sound w -> backoff_sound (step cfg w ev).1.
Proof.
  unfold backoff_sound, maxBackoff.
  intros Hw. destruct ev as [| |c' cev| | |k sev|u uev|h rev].
  - unfold step. js_world. cause_cases; simpl in *; simplify_eq/=; backoff_leaf Hw.
  - unfold step, dispatch. rewrite close_spec. simpl.
    by destruct (ws (client w)).
  - unfold step. js_world. cause_cases; simpl in *; simplify_eq/=; backoff_leaf Hw.
  - unfold step. js_world. cause_cases; simpl in *; simplify_eq/=; backoff_leaf Hw.
  - unfold step. js_world. unfold maxBackoff.
    cause_cases; simpl in *; simplify_eq/=; backoff_leaf Hw.
  - unfold step. js_world. cause_cases; simpl in *; simplify_eq/=; backoff_leaf Hw.
  - unfold step. js_world. cause_cases; simpl in *; simplify_eq/=; backoff_leaf Hw.
  - unfold step. js_world. cause_cases; simpl in *; simplify_eq/=; backoff_leaf Hw.
Qed.

Lemma backoff_sound_initial : backoff_sound initial.
Proof. intros Hp. done. Qed.

Lemma sleeps_in_range_step w ev :
  backoff_sound w ->
  Forall (fun e => sleeps_out_of_range e = false) (step cfg w ev).2.
Proof.
  intros Hw. eapply Forall_impl; [apply (step_causes cfg w ev)|].
  intros [] Hc; simpl in *; try done.
  destruct Hc as (-> & c & Hphase).
  assert (1000 <= backoff w <= 30000) as [Hlo Hhi] by (apply Hw; congruence).
  apply negb_false_iff, andb_true_intro. split; by apply Z.leb_le.
Qed.
End BackoffInvariant.

(** X10.  Along every run of a client from its start, each wait between two
    connection attempts lasts at least 1 s and at most 30 s. *)
Theorem reconnect_waits_between_1s_and_30s `{Codec} (cfg : Config) (evs : list Event) :
  filter sleeps_out_of_range (run cfg initial evs).2 = [].
Proof.
  apply filter_nil_Forall.
  apply (run_invariant cfg backoff_sound _ (backoff_sound_step cfg)
           (sleeps_in_range_step cfg) evs initial (backoff_sound_initial)).
Qed.

Section Handshake.
Context `{Codec}.
Variable cfg : Config.

Lemma step_open_effects w c ch :
  channels w !! c = Some ch -> readyState ch = CONNECTING ->
  (step cfg w (OnChannel c WsOpen)).2 =
    [WsSend c (OpenTunnelRequest (apiKey cfg) (protocol cfg) (remotePort cfg));
     SetInterval c 9000].
Proof.
  intros Hc Hr. unfold step, dispatch, channel_handler.
  unfold bind, get, emit, modify. simpl. rewrite Hc. simpl.
  by rewrite Hr.
Qed.

Lemma no_handshake_step w ev c ch :
  channels w !! c = Some ch -> readyState ch <> CONNECTING ->
  filter (is_handshake_on c) (step cfg w ev).2 = [].
Proof.
  intros Hc Hr. apply filter_nil_Forall.
  eapply Forall_impl; [apply (step_causes cfg w ev)|].
  intros [| | | | |c' [a p r| | |]| | | | | | | | | | | | | | | | | |] Hcause;
    simpl in *; try done.
  destruct Hcause as (_ & _ & ch' & Hc' & Hr').
  apply bool_decide_eq_false. intros ->. congruence.
Qed.

Lemma opened_stays_opened w ev c ch :
  channels w !! c = Some ch -> readyState ch <> CONNECTING ->
  exists ch', channels (step cfg w ev).1 !! c = Some ch' /\ readyState ch' <> CONNECTING.
Proof.
  intros Hc Hr. eexists. split; [by apply step_channel_view|].
  destruct ev as [| |c' cev| | |k sev|u uev|h rev]; simpl; try done.
  - case_bool_decide; [|done]. simpl. by destruct (readyState ch).
  - destruct (bool_decide (c' = c) && channel_enabled ch cev); [|done].
    by destruct cev.
Qed.

Lemma no_handshake_run evs : forall w c ch,
  channels w !! c = Some ch -> readyState ch <> CONNECTING ->
  filter (is_handshake_on c) (run cfg w evs).2 = [].
Proof.
  induction evs as [|ev evs IH]; intros w c ch Hc Hr; [done|].
  simpl. pose proof (no_handshake_step w ev c ch Hc Hr) as He1.
  destruct (opened_stays_opened w ev c ch Hc Hr) as (ch' & Hc' & Hr').
  destruct (step cfg w ev) as [w1 e1]. simpl in *.
  specialize (IH w1 c ch' Hc' Hr').
  destruct (run cfg w1 evs) as [w2 e2]. simpl in *.
  by rewrite filter_app, He1, IH.
Qed.

Lemma handshake_once_run evs : forall w c,
  (length (filter (is_handshake_on c) (run cfg w evs).2) <= 1)%nat.
Proof.
  induction evs as [|ev evs IH]; intros w c; [simpl; lia|].
  simpl. specialize (IH (step cfg w ev).1 c).
  destruct (filter (is_handshake_on c) (step cfg w ev).2) as [|x l] eqn:He1.
  - destruct (step cfg w ev) as [w1 e1]. simpl in *.
    destruct (run cfg w1 evs) as [w2 e2]. simpl in *.
    by rewrite filter_app, He1.
  - assert (Hx : x ∈ filter (is_handshake_on c) (step cfg w ev).2)
      by (rewrite He1; apply list_elem_of_here).
    apply list_elem_of_filter in Hx as [Hx Hin].
    pose proof (proj1 (Forall_forall _ _) (step_causes cfg w ev) x Hin) as Hcause.
    destruct x as [| | | | |c' [a p r| | |]| | | | | | | | | | | | | | | | | |];
      simpl in Hx; try done.
    apply bool_decide_unpack in Hx as ->.
    destruct Hcause as (_ & -> & ch & Hc & Hr).
    rewrite (step_open_effects w c ch Hc Hr) in He1.
    pose proof (step_channel_view cfg w (OnChannel c WsOpen) c ch Hc) as Hview.
    pose proof (step_open_effects w c ch Hc Hr) as Hopen.
    destruct (step cfg w (OnChannel c WsOpen)) as [w1 e1]. simpl in *.
    pose proof (no_handshake_run evs w1 c _ Hview) as Hrest.
    rewrite Hr in Hrest. simpl in Hrest.
    rewrite bool_decide_eq_true_2 in Hrest by done. simpl in Hrest.
    specialize (Hrest ltac:(done)).
    destruct (run cfg w1 evs) as [w2 e2]. simpl in *.
    rewrite filter_app, Hrest, Hopen, app_nil_r.
    rewrite !filter_cons, filter_nil.
    repeat (destruct (decide _) as [Hd|Hd]); simpl in *; first [lia | done].
Qed.
End Handshake.

(** X11.  Whatever events come, from whatever world, the handshake is sent
    at most once on each channel, and every handshake frame carries the
    credential, the mode and the remote port of the configuration. *)
Theorem handshake_is_sent_once_and_as_configured `{Codec} (cfg : Config) (w : World)
    (evs : list Event) (c : nat) :
  (length (filter (is_handshake_on c) (run cfg w evs).2) <= 1)%nat /\
  Forall (handshake_as_configured cfg) (run cfg w evs).2.
Proof.
  split; [apply handshake_once_run|].
  apply (run_invariant cfg (fun _ => True) (handshake_as_configured cfg)); [done| |done].
  intros w0 ev _. eapply Forall_impl; [apply (step_causes cfg w0 ev)|].
  intros [| | | | |c' [a p r| | |]| | | | | | | | | | | | | | | | | |] Hcause;
    simpl in *; try done. tauto.
Qed.

Section CloseFacts.
Context `{Codec}.
Variable cfg : Config.

Lemma step_close w :
  step cfg w CallClose =
    (let ks := (map_to_list (tcpConnections (client w))).*2 in
     let w1 := upd_sockets (fun l => foldl (fun l k => alter mark_destroyed k l) l ks) w in
     let w2 := upd_client (fun _ => {| ws := None; closed := true; tcpConnections := ∅ |}) w1 in
     match ws (client w) with
     | Some c =>
         upd_channels (alter (fun ch =>
           {| readyState := readyState_close (readyState ch);
              pingInterval := pingInterval ch;
              innerClose := innerClose ch; lifecycle := lifecycle ch |}) c) w2
     | None => w2
     end,
     (SocketDestroy <$> (map_to_list (tcpConnections (client w))).*2)
       ++ match ws (client w) with Some c => [WsClose c] | None => [] end).
Proof. unfold step, dispatch. by rewrite close_spec. Qed.
End CloseFacts.

(** X12.  A second [close()] changes nothing and does nothing: no socket
    is destroyed again and no channel is closed again. *)
Theorem close_twice_is_close_once `{Codec} (cfg : Config) (w : World) :
  step cfg (step cfg w CallClose).1 CallClose = ((step cfg w CallClose).1, []).
Proof.
  rewrite (step_close cfg (step cfg w CallClose).1), (step_close cfg w).
  destruct w as [[wsv cls reg] chs socks exs reqs ph bo]; simpl.
  destruct wsv; simpl; by rewrite map_to_list_empty.
Qed.

(** X13.  [close()] destroys the registered stream sockets and closes the
    channel it holds, and that is all it does: datagram exchanges and
    suspended request activations stay as they are (their sockets and local
    calls are left to end by themselves), no ping interval is cleared, the
    activation of [connect] is not resumed, and no callback or log line
    tells the user. *)
Theorem close_leaves_other_work_in_flight `{Codec} (cfg : Config) (w : World) :
  let '(w1, e1) := step cfg w CallClose in
  exchanges w1 = exchanges w /\
  requests w1 = requests w /\
  phase w1 = phase w /\ backoff w1 = backoff w /\
  pingInterval <$> channels w1 = pingInterval <$> channels w /\
  lifecycle <$> channels w1 = lifecycle <$> channels w /\
  filter (fun e => negb (close_effect e)) e1 = [].
Proof.
  rewrite (step_close cfg w).
  assert (Hfilter : forall ks tl,
    filter (fun e => negb (close_effect e)) tl = [] ->
    filter (fun e => negb (close_effect e)) ((SocketDestroy <$> ks) ++ tl) = []).
  { intros ks tl Htl. induction ks as [|k ks IH]; [done|].
    simpl. rewrite filter_cons. simpl. exact IH. }
  assert (Hfmap : forall {B} (g : Channel -> B) (f : Channel -> Channel) c (l : list Channel),
    (forall ch, g (f ch) = g ch) -> g <$> alter f c l = g <$> l).
  { intros B g f c l Hg. apply list_eq. intros i. rewrite !list_lookup_fmap.
    destruct (decide (i = c)) as [->|Hne].
    - rewrite list_lookup_alter_eq. destruct (l !! c); simpl; [|done]. by rewrite Hg.
    - by rewrite list_lookup_alter_ne. }
  destruct (ws (client w)) as [c|]; simpl.
  - split_and!; try done.
    + by apply Hfmap.
    + by apply Hfmap.
    + by apply Hfilter.
  - split_and!; try done. by apply Hfilter.
Qed.

Section ProxyHeaders.
Lemma proxy_headers_elem (hs : list (string * HeaderValue)) (key v : string) :
  (key, v) ∈ proxy_headers hs <->
  (key, One v) ∈ hs \/ exists vs, (key, Many (v :: vs)) ∈ hs.
Proof.
  induction hs as [|[k0 [v0|[|v0 vs0]|]] hs IH]; simpl.
  - split; [by intros ?%elem_of_nil|].
    intros [?%elem_of_nil|[vs ?%elem_of_nil]]; done.
  - rewrite elem_of_cons, IH. split.
    + intros [Heq|[Hin|[vs Hin]]].
      * injection Heq as -> ->. left. apply list_elem_of_here.
      * left. by apply list_elem_of_further.
      * right. exists vs. by apply list_elem_of_further.
    + intros [Hin|[vs Hin]].
      * apply elem_of_cons in Hin as [Heq|Hin]; [left; congruence|right; by left].
      * apply elem_of_cons in Hin as [Heq|Hin]; [done|]. right. right. by exists vs.
  - rewrite IH. split.
    + intros [Hin|[vs Hin]].
      * left. by apply list_elem_of_further.
      * right. exists vs. by apply list_elem_of_further.
    + intros [Hin|[vs Hin]].
      * apply elem_of_cons in Hin as [Heq|Hin]; [done|]. by left.
      * apply elem_of_cons in Hin as [Heq|Hin]; [done|]. right. by exists vs.
  - rewrite elem_of_cons, IH. split.
    + intros [Heq|[Hin|[vs Hin]]].
      * injection Heq as -> ->. right. exists vs0. apply list_elem_of_here.
      * left. by apply list_elem_of_further.
      * right. exists vs. by apply list_elem_of_further.
    + intros [Hin|[vs Hin]].
      * apply elem_of_cons in Hin as [Heq|Hin]; [done|]. right. by left.
      * apply elem_of_cons in Hin as [Heq|Hin]; [left; congruence|].
        right. right. by exists vs.
  - rewrite IH. split.
    + intros [Hin|[vs Hin]].
      * left. by apply list_elem_of_further.
      * right. exists vs. by apply list_elem_of_further.
    + intros [Hin|[vs Hin]].
      * apply elem_of_cons in Hin as [Heq|Hin]; [done|]. by left.
      * apply elem_of_cons in Hin as [Heq|Hin]; [done|]. right. by exists vs.
Qed.

Lemma proxy_headers_keys (hs : list (string * HeaderValue)) :
  sublist (proxy_headers hs).*1 hs.*1.
Proof.
  induction hs as [|[k0 [v0|[|v0 vs0]|]] hs IH]; simpl.
  - constructor.
  - by apply sublist_skip.
  - by apply sublist_cons.
  - by apply sublist_skip.
  - by apply sublist_cons.
Qed.

Lemma proxy_headers_single (hs : Headers) :
  proxy_headers ((fun kv => (kv.1, One kv.2)) <$> hs) = hs.
Proof. induction hs as [|[k v] hs IH]; [done|]. simpl. f_equal. exact IH. Qed.
End ProxyHeaders.

(** X14.  When the local HTTP call ends, its answer is passed on as the
    one [response] frame, whatever its status (a missing status reads 500);
    the frame's body is the chunks in the order they came, read as text.
    Of the answer's headers the frame keeps each single value as it is and
    the first value of each list; a header with no value is left out, and
    the order of the headers is kept. *)
Theorem proxied_answer_keeps_first_header_values `{Codec} (cfg : Config)
    (cl : Client) (c h : nat) (req : IncomingRequest) (status : option Z)
    (hs : list (string * HeaderValue)) (chunks : list Buffer) :
  ws_if_open cl = Some c ->
  request_run cfg h (AtProxy req) [(cl, Proxy (ProxyEnd status hs chunks))] =
    (AtSend,
     [WsSend c (ResponseMessage (id req) (default 500 status) (proxy_headers hs)
                  (utf8_decode (concat chunks)))]) /\
  (forall key v,
     (key, v) ∈ proxy_headers hs <->
     (key, One v) ∈ hs \/ exists vs, (key, Many (v :: vs)) ∈ hs) /\
  sublist (proxy_headers hs).*1 hs.*1 /\
  (forall plain : Headers,
     hs = (fun kv => (kv.1, One kv.2)) <$> plain -> proxy_headers hs = plain).
Proof.
  intros Hc. split_and!.
  - rewrite request_run_cons.
    change (handleRequest_resume cfg cl h (AtProxy req) (Proxy (ProxyEnd status hs chunks)) tt)
      with (try_catch
              (bind (proxy_settle h (ProxyEnd status hs chunks))
                    (fun resp => handleRequest_send cl req resp))
              (handleRequest_catch cfg) tt).
    unfold proxy_settle. rewrite try_catch_bind_ret.
    by rewrite (handleRequest_send_open cfg cl c req _ tt Hc).
  - apply proxy_headers_elem.
  - apply proxy_headers_keys.
  - intros plain ->. apply proxy_headers_single.
Qed.

Lemma proxied_answer_keeps_first_header_values_witness :
  ws_if_open open_client = Some 0%nat /\
  request_run (constructor sample_options) 0 (AtProxy sample_request)
    [(open_client,
      Proxy (ProxyEnd (Some 404)
               [("content-type"%string, One "text/plain"%string);
                ("set-cookie"%string, Many ["a=1"%string; "b=2"%string]);
                ("x-empty"%string, Many []);
                ("x-none"%string, Undefined)]
               [String.list_byte_of_string "not "; String.list_byte_of_string "found"]))] =
    (AtSend,
     [WsSend 0 (ResponseMessage "r1" 404
                  [("content-type"%string, "text/plain"%string);
                   ("set-cookie"%string, "a=1"%string)]
                  "not found")]).
Proof.
  split; [reflexivity|].
  exact (proj1 (proxied_answer_keeps_first_header_values (constructor sample_options)
           open_client 0 0 sample_request (Some 404)
           [("content-type"%string, One "text/plain"%string);
            ("set-cookie"%string, Many ["a=1"%string; "b=2"%string]);
            ("x-empty"%string, Many []);
            ("x-none"%string, Undefined)]
           [String.list_byte_of_string "not "; String.list_byte_of_string "found"]
           eq_refl)).
Defined.

(** X15.  A [request] frame that reaches a client in proxy mode becomes one
    local HTTP call with the frame's method, path and headers (none when the
    frame has no [headers]); the body is written only when the frame has a
    body that is not the empty string, so that an empty body and no body
    make the same call.  The activation is then recorded as waiting for the
    local call, and nothing is sent yet. *)
Theorem request_frame_becomes_one_local_call `{Codec} (cfg : Config)
    (data : Fields) (w : World) :
  onRequest cfg = None -> 0 < port cfg -> protocol cfg = http ->
  let h := length (requests w) in
  let written :=
    match f_body data with
    | Some s => if String.eqb s "" then None else Some (utf8_encode s)
    | None => None
    end in
  let req := {| id := f_requestId data; method := f_method data; path := f_path data;
                headers := default [] (f_headers data); body := written |} in
  handleMessage cfg (Parsed (Some MessageType.REQUEST) data) w =
    (Normal tt,
     upd_requests (fun l => l ++ [AtProxy req]) w,
     HttpRequest h {| ro_hostname := "localhost"; ro_port := port cfg;
                      ro_path := f_path data; ro_method := f_method data;
                      ro_headers := default [] (f_headers data); ro_timeout := 30000 |}
       :: match written with Some b => [HttpWrite h b] | None => [] end
       ++ [HttpEnd h]).
Proof.
  intros Hf Hp Hm h written req.
  unfold handleMessage, JSON_parse, msgType_of.
  unfold try_catch at 1. unfold bind at 1, ret at 1. unfold bind at 1, ret at 1.
  change (String.eqb MessageType.REQUEST MessageType.TUNNEL_OPENED) with false.
  change (String.eqb MessageType.REQUEST MessageType.TCP_CONNECTION) with false.
  change (String.eqb MessageType.REQUEST MessageType.TCP_DATA) with false.
  change (String.eqb MessageType.REQUEST MessageType.UDP_DATA) with false.
  change (String.eqb MessageType.REQUEST MessageType.REQUEST) with true.
  cbv iota. fold written. fold req.
  unfold handleRequest_call, detached, handleRequest. rewrite Hf.
  apply Z.ltb_lt in Hp. rewrite Hp, Hm. simpl.
  unfold try_catch, bind at 1. rewrite proxyHTTP_spec. simpl.
  by rewrite !app_nil_r.
Qed.

Lemma request_frame_becomes_one_local_call_witness :
  let data := {| f_url := ""; f_connectionId := ""; f_data := ""; f_packetId := "";
                 f_requestId := "r7"; f_method := "POST"; f_path := "/submit";
                 f_headers := None; f_body := Some ""%string; f_message := "" |} in
  0 < port (constructor sample_options) /\
  handleMessage (constructor sample_options) (Parsed (Some MessageType.REQUEST) data)
    world_open =
    (Normal tt,
     upd_requests (fun l => l ++
       [AtProxy {| id := "r7"; method := "POST"; path := "/submit"; headers := [];
                   body := None |}]) world_open,
     [HttpRequest 0 {| ro_hostname := "localhost"; ro_port := 3000; ro_path := "/submit";
                       ro_method := "POST"; ro_headers := []; ro_timeout := 30000 |};
      HttpEnd 0]).
Proof.
  split; [reflexivity|].
  exact (request_frame_becomes_one_local_call (constructor sample_options)
           {| f_url := ""; f_connectionId := ""; f_data := ""; f_packetId := "";
              f_requestId := "r7"; f_method := "POST"; f_path := "/submit";
              f_headers := None; f_body := Some ""%string; f_message := "" |}
           world_open eq_refl eq_refl eq_refl).
Defined.

(** X16.  What the options make of the first connection: the channel goes
    to [serverUrl], or to [wss://api.outray.dev] when none is given; the
    handshake, sent as the channel opens, carries the API key as given, the
    protocol ([http] when none is given) and the remote port ([0] when none
    is given); the ping interval is 9 s.  The callbacks and the local port
    have no part in it. *)
Theorem first_connection_follows_the_options `{Codec} (options : ClientOptions) :
  (run (constructor options) initial [CallConnect; OnChannel 0 WsOpen]).2 =
    [NewWebSocket 0 (default "wss://api.outray.dev"%string (opt_serverUrl options));
     WsSend 0 (OpenTunnelRequest (opt_apiKey options)
                 (default http (opt_protocol options))
                 (default 0 (opt_remotePort options)));
     SetInterval 0 9000].
Proof. reflexivity. Qed.

Section FrameFacts.
Context `{Codec}.
Variable cfg : Config.

Lemma only_adds_refl w : only_adds w w.
Proof. repeat split; try done; exists []; by rewrite app_nil_r. Qed.

Lemma reported_frame_effect err : Forall frame_effect (reported cfg err).
Proof.
  unfold reported. destruct (onError cfg) as [g|]; [|done].
  destruct (g err); repeat constructor.
Qed.

Lemma handleRequest_frame_effect {S} cl h req (s : S) :
  exists at_ e,
    handleRequest cfg cl h req s = (Normal at_, s, e) /\ Forall frame_effect e.
Proof.
  unfold handleRequest. destruct (onRequest cfg) as [f|].
  - unfold try_catch at 1, bind at 1. simpl.
    destruct (f req); simpl; try (eexists _, _; split; [done|]; repeat constructor).
    unfold throw. rewrite handleRequest_catch_spec. eexists _, _. split; [done|].
    constructor; [done|]. constructor; [done|]. apply reported_frame_effect.
  - destruct ((0 <? port cfg) && bool_decide (protocol cfg = http)).
    + unfold try_catch, bind at 1. rewrite proxyHTTP_spec. simpl.
      eexists _, _. split; [done|]. destruct (body req); repeat constructor.
    + destruct (ws_if_open cl) as [c|] eqn:Hc.
      * rewrite (handleRequest_send_open cfg cl c req _ s Hc).
        eexists _, _. split; [done|]. repeat constructor.
      * rewrite (handleRequest_send_closed cfg cl req _ s Hc).
        eexists _, _. split; [done|]. constructor; [done|].
        apply reported_frame_effect.
Qed.

Lemma handleMessage_only_adds rawData w :
  exists w1 e,
    handleMessage cfg rawData w = (Normal tt, w1, e) /\
    only_adds w w1 /\ Forall frame_effect e.
Proof.
  js_world.
  repeat first
    [ progress simplify_eq
    | match goal with
      | H : context [safeOnError _ _ _] |- _ => rewrite safeOnError_spec in H
      | |- context [safeOnError ?cfg ?err ?s] => rewrite (safeOnError_spec cfg err s)
      | H : context [handleRequest ?cfg ?cl ?h ?req ?s] |- _ =>
          let Heq := fresh in
          destruct (handleRequest_frame_effect cl h req s) as (? & ? & Heq & ?);
          rewrite Heq in H; clear Heq
      | u : unit |- _ => destruct u
      end
    | case_match ].
  all: eexists _, _; (split; [reflexivity|]).
  all: split;
    [ repeat split; simpl; try done; try (eexists; by rewrite ?app_nil_r); by eexists
    | repeat first [ apply Forall_nil_2 | apply Forall_cons_2 | apply Forall_app_2
                   | apply reported_frame_effect ]; try done ].
Qed.

Lemma handleMessage_error data w :
  handleMessage cfg (Parsed (Some MessageType.ERROR) data) w =
    (Normal tt, w, reported cfg (mkError "Error" (f_message data))).
Proof.
  unfold handleMessage, JSON_parse, msgType_of.
  unfold try_catch at 1. unfold bind at 1, ret at 1. unfold bind at 1, ret at 1.
  change (String.eqb MessageType.ERROR MessageType.TUNNEL_OPENED) with false.
  change (String.eqb MessageType.ERROR MessageType.TCP_CONNECTION) with false.
  change (String.eqb MessageType.ERROR MessageType.TCP_DATA) with false.
  change (String.eqb MessageType.ERROR MessageType.UDP_DATA) with false.
  change (String.eqb MessageType.ERROR MessageType.REQUEST) with false.
  change (String.eqb MessageType.ERROR MessageType.ERROR) with true.
  cbv iota. by rewrite safeOnError_spec.
Qed.

Lemma step_message w c ch rawData :
  channels w !! c = Some ch ->
  channel_enabled ch (WsMessage rawData) = true ->
  step cfg w (OnChannel c (WsMessage rawData)) =
    match handleMessage cfg rawData w with
    | (Normal _, w1, e) => (w1, e)
    | (Abrupt t, w1, e) => (w1, e ++ [Uncaught t])
    end.
Proof.
  intros Hc Hen. unfold step, dispatch.
  unfold bind at 1. unfold get at 1. rewrite Hc, Hen.
  unfold bind at 1. unfold modify at 1.
  change (channel_handler cfg c ?x (WsMessage rawData)) with (handleMessage cfg rawData).
  assert (Hw : upd_channels
                 <[c := {| readyState := readyState_at (readyState ch) (WsMessage rawData);
                           pingInterval := pingInterval ch;
                           innerClose := innerClose ch;
                           lifecycle := lifecycle ch |}]> w = w).
  { destruct w as [cl chs socks exs reqs ph bo]. unfold upd_channels. simpl in *.
    by rewrite (channel_insert_same c ch chs Hc). }
  rewrite Hw. by destruct (handleMessage cfg rawData w) as [[[[]|t] w1] e].
Qed.
End FrameFacts.

(** X17.  An [error] frame from the relay is handed to [onError] as an
    [Error] with the frame's message, and that is all: the client logs
    nothing, sends nothing, keeps its channel and does not reconnect; with
    no [onError] configured the frame passes without any trace. *)
Theorem relay_error_frame_only_reaches_onError `{Codec} (cfg : Config) (w : World)
    (c : nat) (ch : Channel) (data : Fields) :
  channels w !! c = Some ch ->
  channel_enabled ch (WsMessage (Parsed (Some MessageType.ERROR) data)) = true ->
  let err := mkError "Error" (f_message data) in
  step cfg w (OnChannel c (WsMessage (Parsed (Some MessageType.ERROR) data))) =
    (w, reported cfg err) /\
  (onError cfg = None -> reported cfg err = []) /\
  (forall g, onError cfg = Some g -> g err = Returns -> reported cfg err = [CallOnError err]).
Proof.
  intros Hc Hen err. split_and!.
  - by rewrite (step_message cfg w c ch _ Hc Hen), handleMessage_error.
  - intros Hg. unfold reported. by rewrite Hg.
  - intros g Hg Hr. unfold reported. by rewrite Hg, Hr.
Qed.

Lemma relay_error_frame_only_reaches_onError_witness :
  let ch := {| readyState := OPEN; pingInterval := true; innerClose := true;
               lifecycle := Pending |} in
  channels world_open !! 0%nat = Some ch /\
  step cfg_handler_throws world_open
    (OnChannel 0 (WsMessage (Parsed (Some MessageType.ERROR) (error_frame "quota exceeded")))) =
    (world_open, [CallOnError (mkError "Error" "quota exceeded")]).
Proof.
  split; [reflexivity|].
  exact (proj1 (relay_error_frame_only_reaches_onError cfg_handler_throws world_open 0
           {| readyState := OPEN; pingInterval := true; innerClose := true;
              lifecycle := Pending |}
           (error_frame "quota exceeded") eq_refl eq_refl)).
Defined.

(** X18.  No inbound message, whatever it holds, can make the client close
    or reconnect: handling it returns normally, keeps the channel that the
    client holds, the closed flag, every channel and the activation of
    [connect], and leaves every existing socket, datagram exchange and
    request activation as it is; it can only add new ones.  What it does
    to the outside is limited to [frame_effect]: it never closes a channel,
    destroys a socket, opens a channel or sleeps. *)
Theorem inbound_frames_only_add `{Codec} (cfg : Config) (rawData : RawMessage)
    (w : World) :
  let '(r, w1, e) := handleMessage cfg rawData w in
  r = Normal tt /\ only_adds w w1 /\ filter (fun e => negb (frame_effect e)) e = [].
Proof.
  destruct (handleMessage_only_adds cfg rawData w) as (w1 & e & -> & Hw & He).
  split; [done|]. split; [done|].
  induction He as [|e es He _ IH]; [done|].
  rewrite filter_cons. apply Is_true_true in He. by rewrite He.
Qed.

Section DatagramClosing.
Context `{Codec}.
Variable cfg : Config.

Lemma reported_no_close err :
  filter is_dgram_close (reported cfg err) = [] /\
  filter is_clear_timeout (reported cfg err) = [].
Proof.
  unfold reported. destruct (onError cfg) as [g|]; [|done]. by destruct (g err).
Qed.

(** What one event of an exchange does, by the state of the socket. *)
Lemma udp_step_closing w u x ev :
  exists r x1 e1,
    udp_step cfg w u ev x = (r, x1, e1) /\
    match socket x with
    | Receiving =>
        (x1 = x /\ e1 = []) \/
        (r = Normal tt /\ socket x1 = Closing /\
         length (filter is_dgram_close e1) = 1%nat /\
         length (filter is_clear_timeout e1) = 0%nat)
    | Closing =>
        r = Normal tt /\
        ((x1 = x /\ e1 = []) \/
         (socket x1 = Closed /\
          length (filter is_dgram_close e1) = 0%nat /\
          length (filter is_clear_timeout e1) = 1%nat))
    | Closed => r = Normal tt /\ x1 = x /\ e1 = []
    end.
Proof.
  destruct (socket x) eqn:Hx.
  - destruct ev as [d|err| |].
    + rewrite (udp_step_message cfg w u x d Hx).
      destruct (send_throws w); eexists _, _, _; (split; [done|]); [by left|].
      right. split_and!; try done.
      * rewrite filter_app. by destruct (sends_on w).
      * rewrite filter_app. by destruct (sends_on w).
    + unfold udp_step, udp_enabled. rewrite Hx. simpl.
      unfold bind at 1. rewrite safeOnError_spec.
      unfold socket_close, bind, emit, modify. simpl.
      eexists _, _, _; (split; [reflexivity|]). right.
      destruct (reported_no_close err) as [Hrc Hrt].
      rewrite !filter_app, Hrc, Hrt. done.
    + unfold udp_step, udp_enabled. rewrite Hx. simpl.
      destruct (timeout x); simpl.
      * unfold bind, get, emit, modify, socket_close. simpl.
        eexists _, _, _; (split; [reflexivity|]); right; done.
      * eexists _, _, _; (split; [reflexivity|]); auto.
    + unfold udp_step, udp_enabled. rewrite Hx. simpl.
      eexists _, _, _; (split; [reflexivity|]); auto.
  - unfold udp_step, udp_enabled. rewrite Hx.
    destruct ev as [d|err| |]; simpl; rewrite ?andb_false_r;
      eexists _, _, _; (split; [reflexivity|]); auto.
  - unfold udp_step, udp_enabled. rewrite Hx.
    destruct ev as [d|err| |]; simpl; rewrite ?andb_false_r;
      eexists _, _, _; (split; [reflexivity|]); auto.
Qed.

Lemma escaped_no_close {A} (r : Completion A) :
  filter is_dgram_close (escaped r) = [] /\ filter is_clear_timeout (escaped r) = [].
Proof. by destruct r. Qed.

(** From each state of the socket, how often [close()] is called and the
    timer cleared along a schedule, and where the socket ends up. *)
Lemma udp_run_closing u x sched :
  let x' := (udp_run cfg u x sched).1 in
  let closes := length (filter is_dgram_close (udp_run cfg u x sched).2) in
  let clears := length (filter is_clear_timeout (udp_run cfg u x sched).2) in
  match socket x with
  | Receiving =>
      (socket x' = Receiving /\ closes = 0 /\ clears = 0)%nat \/
      (socket x' = Closing /\ closes = 1 /\ clears = 0)%nat \/
      (socket x' = Closed /\ closes = 1 /\ clears = 1)%nat
  | Closing =>
      (socket x' = Closing /\ closes = 0 /\ clears = 0)%nat \/
      (socket x' = Closed /\ closes = 0 /\ clears = 1)%nat
  | Closed => (socket x' = Closed /\ closes = 0 /\ clears = 0)%nat
  end.
Proof.
  cbv zeta. revert x. induction sched as [|[w ev] sched IH]; intros x.
  { simpl. destruct (socket x); auto. }
  rewrite udp_run_cons.
  destruct (udp_step_closing w u x ev) as (r & x1 & e1 & -> & Hstep).
  pose proof (IH x1) as IH1. pose proof (IH x) as IHx.
  destruct (escaped_no_close r) as [Hrc Hrt].
  cbn [fst snd]. rewrite !filter_app, !length_app, Hrc, Hrt. cbn [length Nat.add].
  destruct (socket x) eqn:Hx.
  - destruct Hstep as [[-> ->]|(_ & Hs1 & -> & ->)].
    + exact IHx.
    + rewrite Hs1 in IH1. simpl.
      destruct IH1 as [(Hs & Hc & Ht)|(Hs & Hc & Ht)]; rewrite Hc, Ht; auto.
  - destruct Hstep as (_ & [[-> ->]|(Hs1 & -> & ->)]).
    + exact IHx.
    + rewrite Hs1 in IH1. simpl.
      destruct IH1 as (Hs & Hc & Ht). rewrite Hc, Ht. auto.
  - destruct Hstep as (_ & -> & ->). exact IHx.
Qed.
End DatagramClosing.

(** X19.  Whatever a datagram exchange lives through, [close()] is called
    on its socket at most once (a second call would throw) and its timer is
    cleared at most once, and only after [close()]: the exchange is either
    still receiving with nothing closed, or closing with one call of
    [close()], or closed with one call of [close()] and the timer cleared. *)
Theorem udp_socket_is_closed_at_most_once `{Codec} (cfg : Config) (u : nat)
    (packetId : string) (sched : list (World * UdpEvent)) :
  let x' := (udp_run cfg u (new_exchange packetId) sched).1 in
  let closes :=
    length (filter is_dgram_close (udp_run cfg u (new_exchange packetId) sched).2) in
  let clears :=
    length (filter is_clear_timeout (udp_run cfg u (new_exchange packetId) sched).2) in
  (socket x' = Receiving /\ closes = 0 /\ clears = 0)%nat \/
  (socket x' = Closing /\ closes = 1 /\ clears = 0)%nat \/
  (socket x' = Closed /\ closes = 1 /\ clears = 1)%nat.
Proof. exact (udp_run_closing cfg u (new_exchange packetId) sched). Qed.

Section ActivationEnds.
Context `{Codec}.
Variable cfg : Config.

Lemma request_run_never h req sched :
  request_run cfg h (AtHandler req HNever) sched = (AtHandler req HNever, []).
Proof.
  induction sched as [|[cl ev] sched IH]; [done|].
  rewrite request_run_cons. destruct ev as [|pev|[err|]]; simpl; by rewrite IH.
Qed.
End ActivationEnds.

(** X20.  When the promise that the request handler returned never
    settles, the request is never answered: the activation stays suspended
    at the handler, and no response, no timeout, no log line and no call of
    [onError] ever follows, whatever else happens. *)
Theorem handler_that_never_settles_gets_no_response `{Codec} (cfg : Config) f
    (cl : Client) (h : nat) (req : IncomingRequest)
    (sched : list (Client * RequestEvent)) :
  onRequest cfg = Some f -> f req = HNever ->
  request_life cfg cl h req sched = (AtHandler req HNever, [CallOnRequest req]).
Proof.
  intros Hf Hr. unfold request_life, handleRequest. rewrite Hf.
  unfold try_catch at 1, bind at 1. simpl. rewrite Hr. simpl.
  by rewrite request_run_never.
Qed.

Lemma handler_that_never_settles_gets_no_response_witness :
  request_life cfg_handler_never open_client 0 sample_request
    [(open_client, HandlerSettled); (open_client, SendDone None);
     (open_client, Proxy ProxyTimeout)] =
    (AtHandler sample_request HNever, [CallOnRequest sample_request]).
Proof.
  exact (handler_that_never_settles_gets_no_response cfg_handler_never handler_never
           open_client 0 sample_request
           [(open_client, HandlerSettled); (open_client, SendDone None);
            (open_client, Proxy ProxyTimeout)] eq_refl eq_refl).
Defined.

(** X21.  When [ws.send] reports that the response could not be sent, the
    activation logs the error, hands it to [onError] and ends; the response
    is not sent again.  When [ws.send] reports success the activation ends
    without a trace. *)
Theorem failed_send_is_reported_not_retried `{Codec} (cfg : Config) (cl : Client)
    (h : nat) (err : JsError) (sched : list (Client * RequestEvent)) :
  request_run cfg h AtSend ((cl, SendDone (Some err)) :: sched) =
    (Finished,
     Log error ("Error handling request: " +:+ errMessage err) :: reported cfg err) /\
  filter is_send (request_run cfg h AtSend ((cl, SendDone (Some err)) :: sched)).2 = [] /\
  request_run cfg h AtSend ((cl, SendDone None) :: sched) = (Finished, []).
Proof.
  assert (Hfail : request_run cfg h AtSend ((cl, SendDone (Some err)) :: sched) =
    (Finished,
     Log error ("Error handling request: " +:+ errMessage err) :: reported cfg err)).
  { rewrite request_run_cons. simpl. unfold try_catch, throw.
    rewrite handleRequest_catch_spec, request_run_Finished. simpl.
    by rewrite app_nil_r. }
  split_and!.
  - exact Hfail.
  - rewrite Hfail. simpl. apply reported_no_send.
  - rewrite request_run_cons. simpl. by rewrite request_run_Finished.
Qed.

(** X22.  A ping is sent only from the interval of a channel, and only
    while that channel is open: never while it is connecting, closing or
    closed, and never by any other event. *)
Theorem ping_goes_only_to_an_open_channel `{Codec} (cfg : Config) (w : World)
    (ev : Event) (c : nat) :
  WsPing c ∈ (step cfg w ev).2 ->
  ev = OnChannel c PingTick /\
  exists ch, channels w !! c = Some ch /\ readyState ch = OPEN /\ pingInterval ch = true.
Proof.
  intros Hin. pose proof (step_causes cfg w ev) as Hall.
  rewrite Forall_forall in Hall. exact (Hall _ Hin).
Qed.

Lemma ping_goes_only_to_an_open_channel_witness :
  WsPing 0 ∈ (step (constructor sample_options) world_open (OnChannel 0 PingTick)).2 /\
  exists ch, channels world_open !! 0%nat = Some ch /\
             readyState ch = OPEN /\ pingInterval ch = true.
Proof.
  assert (Hin : WsPing 0 ∈
    (step (constructor sample_options) world_open (OnChannel 0 PingTick)).2)
    by (vm_compute; apply list_elem_of_here).
  split; [exact Hin|].
  exact (proj2 (ping_goes_only_to_an_open_channel (constructor sample_options)
                  world_open (OnChannel 0 PingTick) 0 Hin)).
Defined.

(** X23.  When the relay announces the same connection id twice, the
    second socket replaces the first in the registry and the first is not
    destroyed.  When the first socket then closes, its handler removes the
    id from the registry although the id now belongs to the second socket:
    the second socket stays open and unregistered, and [tcp_data] for the
    id is dropped. *)
Theorem reused_connection_id_orphans_the_later_socket `{Codec} (cfg : Config)
    (opening payload : Fields) (w : World) :
  f_connectionId payload = f_connectionId opening ->
  let k := length (sockets w) in
  let '(_, w1, _) :=
    handleMessage cfg (Parsed (Some MessageType.TCP_CONNECTION) opening) w in
  let '(_, w2, e2) :=
    handleMessage cfg (Parsed (Some MessageType.TCP_CONNECTION) opening) w1 in
  let '(w3, e3) := step cfg w2 (OnSocket k SocketClose) in
  e2 = [CreateConnection (S k) (port cfg) "localhost"] /\
  tcpConnections (client w2) !! f_connectionId opening = Some (S k) /\
  socket_live w2 k = true /\
  e3 = [] /\
  tcpConnections (client w3) !! f_connectionId opening = None /\
  socket_live w3 (S k) = true /\
  handleMessage cfg (Parsed (Some MessageType.TCP_DATA) payload) w3 = (Normal tt, w3, []).
Proof.
  intros Hid k. rewrite !handleMessage_tcp_connection.
  set (s := {| connId := f_connectionId opening; destroyed := false; ended := false |}).
  match goal with |- context [step cfg ?x _] => set (w2 := x) end.
  assert (Hk : sockets w2 !! k = Some s).
  { subst w2 k. simpl. rewrite lookup_app_l by (rewrite length_app; simpl; lia).
    by rewrite lookup_app_r, Nat.sub_diag. }
  assert (HSk : sockets w2 !! S k = Some s).
  { subst w2 k. simpl. rewrite lookup_app_r by (rewrite length_app; simpl; lia).
    rewrite length_app. simpl.
    by replace (S (length (sockets w)) - (length (sockets w) + 1))%nat with 0%nat by lia. }
  rewrite (step_socket_close cfg w2 k s Hk eq_refl).
  split_and!.
  - subst w2 k. simpl. rewrite length_app. simpl. by rewrite Nat.add_1_r.
  - subst w2 k. simpl. rewrite length_app. simpl.
    by rewrite lookup_insert_eq, Nat.add_1_r.
  - unfold socket_live. by rewrite Hk.
  - done.
  - simpl. apply lookup_delete_eq.
  - unfold socket_live, upd_client, upd_sockets. cbn [sockets].
    rewrite list_lookup_alter_ne by lia. by rewrite HSk.
  - rewrite handleMessage_tcp_data. simpl. by rewrite Hid, lookup_delete_eq.
Qed.

Lemma reused_connection_id_orphans_the_later_socket_witness :
  f_connectionId no_fields = f_connectionId no_fields /\
  let '(_, w1, _) :=
    handleMessage (constructor sample_options)
      (Parsed (Some MessageType.TCP_CONNECTION) no_fields) initial in
  let '(_, w2, e2) :=
    handleMessage (constructor sample_options)
      (Parsed (Some MessageType.TCP_CONNECTION) no_fields) w1 in
  let '(w3, e3) := step (constructor sample_options) w2 (OnSocket 0 SocketClose) in
  e2 = [CreateConnection 1 3000 "localhost"] /\
  tcpConnections (client w2) !! (""%string : string) = Some 1%nat /\
  socket_live w2 0 = true /\
  e3 = [] /\
  tcpConnections (client w3) !! (""%string : string) = None /\
  socket_live w3 1 = true /\
  handleMessage (constructor sample_options)
    (Parsed (Some MessageType.TCP_DATA) no_fields) w3 = (Normal tt, w3, []).
Proof.
  split; [reflexivity|].
  exact (reused_connection_id_orphans_the_later_socket (constructor sample_options)
           no_fields no_fields initial eq_refl).
Defined.
